(** * Boundary-tag block allocator of [coalesce.c]

    A shallow embedding of the allocator in [src/coalesce.c]: the global byte
    array [area], the field macros keyed off [block_ptr], and the functions
    [simple_init], [print_blocks], [simple_allocate] and [simple_release],
    followed by the properties of the block list they maintain. *)

From Stdlib Require Import ZArith Lia Bool.
From stdpp Require Import base list.

Local Open Scope Z_scope.

(** ** Constants of the source *)

Definition FREE : Z := 0.
Definition ALLOCATED : Z := 1.

Definition BYTE_COUNT : Z := 256.
Definition MIN_PAYLOAD_SIZE : Z := 2.
Definition MIN_BLOCK_SIZE : Z := 6.

Definition HEADER_SIZE : Z := 2.
Definition CONTROL_FIELDS_SIZE : Z := 4.

(** ** The array [area] and the outcome of running code on it *)

(** [unsigned char area[BYTE_COUNT]]: a list of byte values.  An index is a
    [Z] offset from the start of [area]; pointers into [area] are modelled by
    their offsets. *)
Abbreviation area := (list Z).

Definition is_byte (v : Z) : bool := (0 <=? v) && (v <? 256).

(** The type invariant of the C array: [BYTE_COUNT] cells, each a byte. *)
Definition area_ok (a : area) : Prop :=
  (Z.of_nat (length a) =? BYTE_COUNT) && forallb is_byte a = true.

(** Running a piece of the program either finishes with a value and the new
    contents of [area], or touches a byte outside [area] (undefined behaviour
    in C), or exhausts the iteration budget of a loop of the model. *)
Inductive outcome (A : Type) : Type :=
  | Done (x : A) (a : area)
  | Fault
  | OutOfFuel.

Arguments Done {A} x a.
Arguments Fault {A}.
Arguments OutOfFuel {A}.

Definition M (A : Type) : Type := area -> outcome A.

Definition ret {A} (x : A) : M A := fun a => Done x a.

Definition bind {A B} (m : M A) (k : A -> M B) : M B :=
  fun a => match m a with
           | Done x a' => k x a'
           | Fault => Fault
           | OutOfFuel => OutOfFuel
           end.

Definition out_of_fuel {A} : M A := fun _ => OutOfFuel.

Notation "'do' x <- m ;; k" := (bind m (fun x => k))
  (at level 10, x name, m at level 99, k at level 200).
Notation "m ;;; k" := (bind m (fun _ => k))
  (at level 100, k at level 200, right associativity).

(** Reading [area[p]]. *)
Definition load (a : area) (p : Z) : option Z :=
  if 0 <=? p then a !! Z.to_nat p else None.

Definition in_area (a : area) (p : Z) : bool :=
  (0 <=? p) && (p <? Z.of_nat (length a)).

Definition rd (p : Z) : M Z :=
  fun a => match load a p with
           | Some v => Done v a
           | None => Fault
           end.

(** Writing [area[p] = v]: the value is converted to [unsigned char]. *)
Definition store (a : area) (p v : Z) : area :=
  <[Z.to_nat p := v mod 256]> a.

Definition wr (p v : Z) : M unit :=
  fun a => if in_area a p then Done tt (store a p v) else Fault.

(** ** The field macros

    Each macro of the source is an lvalue built from [block_ptr]; it is
    modelled by the computation of the offset it designates.  The offsets of
    the trailer fields go through [PAYLOAD_SIZE], that is through a read of
    the top size byte, every time they are used. *)

Definition get (lv : M Z) : M Z := do p <- lv ;; rd p.
Definition set (lv : M Z) (v : Z) : M unit := do p <- lv ;; wr p v.

Definition USER_PTR (block_ptr : Z) : Z := block_ptr + HEADER_SIZE.
Definition TOP_STATUS (block_ptr : Z) : M Z := ret block_ptr.
Definition TOP_SIZE (block_ptr : Z) : M Z := ret (block_ptr + 1).
Definition PAYLOAD_SIZE (block_ptr : Z) : M Z := TOP_SIZE block_ptr.
Definition BLOCK_SIZE (block_ptr : Z) : M Z :=
  do s <- get (TOP_SIZE block_ptr) ;; ret (s + CONTROL_FIELDS_SIZE).
Definition BOTTOM_SIZE (block_ptr : Z) : M Z :=
  do s <- get (PAYLOAD_SIZE block_ptr) ;; ret (block_ptr + s + 2).
Definition BOTTOM_STATUS (block_ptr : Z) : M Z :=
  do s <- get (PAYLOAD_SIZE block_ptr) ;; ret (block_ptr + s + 3).
Definition TOP_STATUS_OF_NEXT_BLOCK (block_ptr : Z) : M Z :=
  do s <- get (PAYLOAD_SIZE block_ptr) ;; ret (block_ptr + s + 4).
Definition TOP_SIZE_OF_NEXT_BLOCK (block_ptr : Z) : M Z :=
  do s <- get (PAYLOAD_SIZE block_ptr) ;; ret (block_ptr + s + 5).

(** ** [simple_init] *)

Definition simple_init : M unit :=
  wr 0 ALLOCATED ;;;
  wr 1 0 ;;;
  wr 2 0 ;;;
  wr 3 ALLOCATED ;;;
  wr 4 FREE ;;;
  wr 5 (BYTE_COUNT - 12) ;;;
  wr (BYTE_COUNT - 6) (BYTE_COUNT - 12) ;;;
  wr (BYTE_COUNT - 5) FREE ;;;
  wr (BYTE_COUNT - 4) ALLOCATED ;;;
  wr (BYTE_COUNT - 3) 0 ;;;
  wr (BYTE_COUNT - 2) 0 ;;;
  wr (BYTE_COUNT - 1) ALLOCATED.

(** ** [print_blocks]

    The walk over the blocks; what the source prints for a block is returned
    as a record, in the order of the walk. *)

Record block_info : Type := Block {
  b_offset : Z;
  b_top_status : Z;
  b_top_size : Z;
  b_bottom_size : Z;
  b_bottom_status : Z
}.

(** Every iteration of the loops over blocks moves [block_ptr] forward by at
    least [CONTROL_FIELDS_SIZE], so [BYTE_COUNT] iterations are never used
    up (see [print_blocks_terminates], [simple_allocate_terminates] and
    [simple_release_terminates]). *)
Definition loop_fuel : nat := Z.to_nat BYTE_COUNT.

Fixpoint print_blocks_loop (fuel : nat) (block_ptr : Z) : M (list block_info) :=
  if block_ptr <? BYTE_COUNT then
    match fuel with
    | O => out_of_fuel
    | S fuel' =>
        do ts <- get (TOP_STATUS block_ptr) ;;
        do tz <- get (TOP_SIZE block_ptr) ;;
        do bz <- get (BOTTOM_SIZE block_ptr) ;;
        do bs <- get (BOTTOM_STATUS block_ptr) ;;
        do sz <- BLOCK_SIZE block_ptr ;;
        do rest <- print_blocks_loop fuel' (block_ptr + sz) ;;
        ret (Block block_ptr ts tz bz bs :: rest)
    end
  else ret [].

Definition print_blocks : M (list block_info) := print_blocks_loop loop_fuel 0.

(** ** [simple_allocate] *)

(** Arithmetic on [unsigned int]. *)
Definition uint (x : Z) : Z := x mod 2 ^ 32.

Definition is_uint (x : Z) : Prop := 0 <= x < 2 ^ 32.

(** The body of the [if] that found a block: consume it whole or split it. *)
Definition allocate_found (req_size block_ptr : Z) : M (option Z) :=
  do ps <- get (PAYLOAD_SIZE block_ptr) ;;
  if uint (ps - req_size) <? MIN_BLOCK_SIZE then
    set (TOP_STATUS block_ptr) ALLOCATED ;;;
    set (BOTTOM_STATUS block_ptr) ALLOCATED ;;;
    ret (Some (USER_PTR block_ptr))
  else
    do ps <- get (PAYLOAD_SIZE block_ptr) ;;
    let remaining_payload_size := uint (uint (ps - req_size) - CONTROL_FIELDS_SIZE) in
    set (BOTTOM_SIZE block_ptr) remaining_payload_size ;;;
    set (TOP_STATUS block_ptr) ALLOCATED ;;;
    set (TOP_SIZE block_ptr) req_size ;;;
    set (BOTTOM_SIZE block_ptr) req_size ;;;
    set (BOTTOM_STATUS block_ptr) ALLOCATED ;;;
    set (TOP_STATUS_OF_NEXT_BLOCK block_ptr) FREE ;;;
    set (TOP_SIZE_OF_NEXT_BLOCK block_ptr) remaining_payload_size ;;;
    ret (Some (USER_PTR block_ptr)).

(** The condition [*block_ptr == FREE && PAYLOAD_SIZE >= req_size]; the
    second operand is read only when the first holds. *)
Definition allocate_test (req_size block_ptr : Z) : M bool :=
  do st <- rd block_ptr ;;
  if st =? FREE then
    do ps <- get (PAYLOAD_SIZE block_ptr) ;; ret (req_size <=? ps)
  else ret false.

Fixpoint allocate_loop (fuel : nat) (req_size block_ptr : Z) : M (option Z) :=
  if block_ptr <? BYTE_COUNT then
    match fuel with
    | O => out_of_fuel
    | S fuel' =>
        do fits <- allocate_test req_size block_ptr ;;
        if fits then allocate_found req_size block_ptr
        else
          do sz <- BLOCK_SIZE block_ptr ;;
          allocate_loop fuel' req_size (block_ptr + sz)
    end
  else ret None.

(** The result is the offset of the user pointer in [area], or [None] for
    [NULL]. *)
Definition simple_allocate (req_size : Z) : M (option Z) :=
  if req_size >? BYTE_COUNT - CONTROL_FIELDS_SIZE then ret None
  else allocate_loop loop_fuel req_size 0.

(** ** [simple_release]

    [area_addr] is the address at which [area] is placed.  The source
    compares the pointer [left_block] itself with [FREE], that is with the
    null pointer, so the address of [left_block] is what the first loop
    tests.  [t_size] is an [int]; it is kept as an unbounded integer, the
    values it takes being small (see [release_right_loop_fuel]). *)

(** [area] is an object, so its address is not null, and it is declared
    [aligned (65536)]. *)
Definition valid_area_addr (area_addr : Z) : Prop :=
  0 < area_addr /\ area_addr mod 65536 = 0.

Section Release.

Variable area_addr : Z.

(** [while(left_block == FREE)]: [t_size] and [block_ptr] are the loop
    state, [left_block] is [block_ptr - 1] at every test. *)
Fixpoint release_left_loop (fuel : nat) (block_ptr t_size : Z) : M (Z * Z) :=
  let left_block := area_addr + block_ptr - 1 in
  if left_block =? FREE then
    match fuel with
    | O => out_of_fuel
    | S fuel' =>
        do s <- rd (block_ptr - 2) ;;
        let t_size := s + t_size in
        do s' <- rd (block_ptr - 2) ;;
        let block_ptr := block_ptr - 4 - s' in
        release_left_loop fuel' block_ptr t_size
    end
  else ret (block_ptr, t_size).

(** [while( *(block_ptr+t_size+4) == FREE )]. *)
Fixpoint release_right_loop (fuel : nat) (block_ptr t_size : Z) : M Z :=
  do st <- rd (block_ptr + t_size + 4) ;;
  if st =? FREE then
    match fuel with
    | O => out_of_fuel
    | S fuel' =>
        do s <- rd (block_ptr + 5 + t_size) ;;
        release_right_loop fuel' block_ptr (s + t_size + 4)
    end
  else ret t_size.

Definition simple_release (user_ptr : Z) : M unit :=
  let block_ptr := user_ptr - HEADER_SIZE in
  do t_size <- get (TOP_SIZE block_ptr) ;;
  set (TOP_STATUS block_ptr) FREE ;;;
  set (BOTTOM_STATUS block_ptr) FREE ;;;
  do lr <- release_left_loop loop_fuel block_ptr t_size ;;
  let block_ptr := fst lr in
  let t_size := snd lr in
  do t_size <- release_right_loop loop_fuel block_ptr t_size ;;
  set (TOP_SIZE block_ptr) t_size ;;;
  set (BOTTOM_SIZE block_ptr) t_size.

End Release.

(** ** [main]

    The test driver.  What it prints is returned: one report of
    [print_blocks] per call, in order, beside the value [main] returns.
    [p] holds pointers; a [NULL] from [simple_allocate] is the pointer at
    address 0, which lies [area_addr] bytes before [area]. *)

Definition pointer (area_addr : Z) (r : option Z) : Z :=
  match r with
  | Some off => off
  | None => - area_addr
  end.

Definition main (area_addr : Z) : M (list (list block_info) * Z) :=
  simple_init ;;;
  do out0 <- print_blocks ;;
  do p0 <- simple_allocate 244 ;;
  do out1 <- print_blocks ;;
  simple_release area_addr (pointer area_addr p0) ;;;
  do out2 <- print_blocks ;;
  do p1 <- simple_allocate 12 ;;
  do p2 <- simple_allocate 12 ;;
  do p3 <- simple_allocate 12 ;;
  do out3 <- print_blocks ;;
  simple_release area_addr (pointer area_addr p2) ;;;
  do out4 <- print_blocks ;;
  simple_release area_addr (pointer area_addr p1) ;;;
  do out5 <- print_blocks ;;
  simple_release area_addr (pointer area_addr p3) ;;;
  do out6 <- print_blocks ;;
  do p4 <- simple_allocate 100 ;;
  do p5 <- simple_allocate 80 ;;
  do out7 <- print_blocks ;;
  simple_release area_addr (pointer area_addr p4) ;;;
  do out8 <- print_blocks ;;
  simple_release area_addr (pointer area_addr p5) ;;;
  do out9 <- print_blocks ;;
  ret ([out0; out1; out2; out3; out4; out5; out6; out7; out8; out9], 0).

(** The array as the C runtime provides it: all zero. *)
Definition zero_area : area := replicate (Z.to_nat BYTE_COUNT) 0.

(** [area] when a piece of code has run on [a]. *)
Definition final_area {A} (m : M A) (a : area) : area :=
  match m a with
  | Done _ a' => a'
  | _ => a
  end.

(** [area] right after [simple_init]. *)
Definition fresh_area : area := final_area simple_init zero_area.

(** [area] after the first releases of [main]: three blocks of 12 bytes
    were allocated on the fresh array, then the second, the first and the
    third were released, so that no allocation is outstanding. *)
Definition three_blocks_area : area :=
  final_area (simple_allocate 12)
    (final_area (simple_allocate 12)
       (final_area (simple_allocate 12) fresh_area)).

Definition fragmented_area : area :=
  final_area (simple_release 65536 38)
    (final_area (simple_release 65536 6)
       (final_area (simple_release 65536 22) three_blocks_area)).

(** The three blocks expected after [simple_init], with the payload size of
    the free block left open. *)
Definition init_blocks (free_payload : Z) : list block_info :=
  [Block 0 ALLOCATED 0 0 ALLOCATED;
   Block 4 FREE free_payload free_payload FREE;
   Block (BYTE_COUNT - CONTROL_FIELDS_SIZE) ALLOCATED 0 0 ALLOCATED].

(** ** The block list of a well-formed [area]

    A block is described by its status and payload size.  [block_at] says
    that the four control bytes of a block with that description sit at
    [off]; [seg a off l off'] says that the blocks [l] tile [area] from [off]
    up to [off'], each with header and trailer agreeing. *)

Abbreviation block := (Z * Z)%type.

Definition block_at (a : area) (off st sz : Z) : Prop :=
  load a off = Some st /\ load a (off + 1) = Some sz /\
  load a (off + sz + 2) = Some sz /\ load a (off + sz + 3) = Some st.

Fixpoint seg (a : area) (off : Z) (l : list block) (off' : Z) : Prop :=
  match l with
  | [] => off = off'
  | (st, sz) :: l' => block_at a off st sz /\ seg a (off + sz + 4) l' off'
  end.

(** Bytes taken by a list of blocks, control fields included. *)
Fixpoint total (l : list block) : Z :=
  match l with
  | [] => 0
  | (_, sz) :: l' => sz + CONTROL_FIELDS_SIZE + total l'
  end.

(** The blocks of [l] with the offsets they have when [l] starts at [off]. *)
Fixpoint place (off : Z) (l : list block) : list (Z * block) :=
  match l with
  | [] => []
  | (st, sz) :: l' => (off, (st, sz)) :: place (off + sz + 4) l'
  end.

(** What [print_blocks] reports for the blocks [l] laid out from [off]. *)
Fixpoint infos (off : Z) (l : list block) : list block_info :=
  match l with
  | [] => []
  | (st, sz) :: l' => Block off st sz sz st :: infos (off + sz + 4) l'
  end.

(** What [print_blocks] reads along its walk, whether or not header and
    trailer agree. *)
Fixpoint walk (a : area) (off : Z) (bl : list block_info) : Prop :=
  match bl with
  | [] => BYTE_COUNT <= off
  | b :: bl' =>
      off < BYTE_COUNT /\ b_offset b = off /\
      load a off = Some (b_top_status b) /\
      load a (off + 1) = Some (b_top_size b) /\
      load a (off + b_top_size b + 2) = Some (b_bottom_size b) /\
      load a (off + b_top_size b + 3) = Some (b_bottom_status b) /\
      walk a (off + b_top_size b + 4) bl'
  end.

(** Header and trailer of a reported block agree. *)
Definition consistent (b : block_info) : Prop :=
  b_top_status b = b_bottom_status b /\ b_top_size b = b_bottom_size b.

(** [block_size] of a reported block. *)
Definition block_size (b : block_info) : Z := b_top_size b + CONTROL_FIELDS_SIZE.

(** The reported blocks follow one another without gap or overlap from
    [off] to [off']. *)
Fixpoint contiguous (off : Z) (bl : list block_info) (off' : Z) : Prop :=
  match bl with
  | [] => off = off'
  | b :: bl' => b_offset b = off /\ contiguous (off + block_size b) bl' off'
  end.

Definition sum_block_sizes (bl : list block_info) : Z :=
  foldr (fun b acc => block_size b + acc) 0 bl.

(** No two neighbouring reported blocks are both free. *)
Fixpoint no_adjacent_free (bl : list block_info) : bool :=
  match bl with
  | b :: ((b' :: _) as bl') =>
      negb ((b_top_status b =? FREE) && (b_top_status b' =? FREE))
      && no_adjacent_free bl'
  | _ => true
  end.

(** ** The operations on block lists

    What [simple_allocate] and [simple_release] do, told on the block list:
    the statements proved below relate the code to these. *)

Definition fits (req_size : Z) (b : block) : bool :=
  (fst b =? FREE) && (req_size <=? snd b).

Definition allocated_from (req_size : Z) (b : block) : list block :=
  if snd b - req_size <? MIN_BLOCK_SIZE then [(ALLOCATED, snd b)]
  else [(ALLOCATED, req_size);
        (FREE, snd b - req_size - CONTROL_FIELDS_SIZE)].

Fixpoint allocate_blocks (off req_size : Z) (l : list block)
  : option (Z * list block) :=
  match l with
  | [] => None
  | b :: l' =>
      if fits req_size b then
        Some (USER_PTR off, allocated_from req_size b ++ l')
      else
        match allocate_blocks (off + snd b + 4) req_size l' with
        | Some (h, l'') => Some (h, b :: l'')
        | None => None
        end
  end.

(** The free blocks at the front of [l] are absorbed into a block of payload
    size [t]. *)
Fixpoint absorb (t : Z) (l : list block) : Z * list block :=
  match l with
  | (st, sz) :: l' =>
      if st =? FREE then absorb (sz + t + 4) l' else (t, l)
  | [] => (t, [])
  end.

(** The last block of [l] is not free. *)
Definition ends_allocated (l : list block) : Prop :=
  exists b, last l = Some b /\ fst b <> FREE.

Definition released (sz : Z) (post : list block) : list block :=
  (FREE, fst (absorb sz post)) :: snd (absorb sz post).

(** ** States reached by calls of the three functions

    [live] holds the user pointers handed out by [simple_allocate] and not
    yet given to [simple_release]. *)

Record sys : Type := Sys { mem : area; live : list Z }.

Inductive reachable (area_addr : Z) : sys -> Prop :=
  | reach_init a a' :
      area_ok a ->
      simple_init a = Done tt a' ->
      reachable area_addr (Sys a' [])
  | reach_allocate s req_size r a' :
      reachable area_addr s ->
      is_uint req_size ->
      simple_allocate req_size (mem s) = Done r a' ->
      reachable area_addr
        (Sys a' (match r with Some h => h :: live s | None => live s end))
  | reach_release s user_ptr a' :
      reachable area_addr s ->
      user_ptr ∈ live s ->
      simple_release area_addr user_ptr (mem s) = Done tt a' ->
      reachable area_addr
        (Sys a' (filter (fun h => h <> user_ptr) (live s))).

(** The two permanently allocated blocks. *)
Definition sentinel : block := (ALLOCATED, 0).

(** What holds of every reachable state: the blocks tile [area] between the
    two sentinels, and every live user pointer is that of an allocated block
    between them. *)
Definition inv (s : sys) : Prop :=
  area_ok (mem s) /\
  exists mid,
    seg (mem s) 0 (sentinel :: mid ++ [sentinel]) BYTE_COUNT /\
    forall h, h ∈ live s ->
      exists sz, (h - HEADER_SIZE, (ALLOCATED, sz)) ∈ place 4 mid.

(** * Properties *)

(** ** Reads and writes of [area] *)

Lemma area_ok_length (a : area) : area_ok a -> Z.of_nat (length a) = BYTE_COUNT.
Proof.
  unfold area_ok. intros H. apply andb_true_iff in H as [H _].
  by apply Z.eqb_eq in H.
Qed.

Lemma load_Some_range (a : area) (p v : Z) :
  load a p = Some v -> 0 <= p < Z.of_nat (length a).
Proof.
  unfold load. destruct (Z.leb_spec 0 p) as [Hp|Hp]; [|done].
  intros H. apply lookup_lt_Some in H. lia.
Qed.

Lemma area_ok_byte (a : area) (p v : Z) :
  area_ok a -> load a p = Some v -> 0 <= v < 256.
Proof.
  unfold area_ok, load. intros H. apply andb_true_iff in H as [_ H].
  destruct (0 <=? p); [|done]. intros Hv.
  rewrite forallb_forall in H.
  assert (Hin : In v a) by (apply list_elem_of_In; by eapply list_elem_of_lookup_2).
  specialize (H v Hin). unfold is_byte in H. lia.
Qed.

Lemma length_store (a : area) (p v : Z) : length (store a p v) = length a.
Proof. unfold store. apply length_insert. Qed.

Lemma load_store (a : area) (p v q : Z) :
  0 <= p < Z.of_nat (length a) ->
  load (store a p v) q = if Z.eq_dec p q then Some (v mod 256) else load a q.
Proof.
  intros Hp. unfold load, store. destruct (Z.eq_dec p q) as [->|Hne].
  - destruct (Z.leb_spec 0 q); [|lia]. apply list_lookup_insert_eq. lia.
  - destruct (Z.leb_spec 0 q); [|done]. apply list_lookup_insert_ne. lia.
Qed.

Lemma area_ok_store (a : area) (p v : Z) : area_ok a -> area_ok (store a p v).
Proof.
  unfold area_ok. intros H. apply andb_true_iff in H as [Hl Hb].
  apply andb_true_iff. split; [by rewrite length_store|].
  rewrite forallb_forall in *. intros x Hx.
  apply list_elem_of_In in Hx. unfold store in Hx.
  apply list_elem_of_lookup in Hx as [i Hi].
  destruct (decide (i = Z.to_nat p)) as [->|Hne].
  - destruct (decide (Z.to_nat p < length a)%nat) as [Hlt|Hge].
    + rewrite list_lookup_insert_eq in Hi by done. injection Hi as <-.
      unfold is_byte. pose proof (Z.mod_pos_bound v 256). lia.
    + rewrite list_insert_ge in Hi by lia.
      apply Hb, list_elem_of_In. by eapply list_elem_of_lookup_2.
  - rewrite list_lookup_insert_ne in Hi by done.
    apply Hb, list_elem_of_In. by eapply list_elem_of_lookup_2.
Qed.

Lemma in_area_true (a : area) (p : Z) :
  in_area a p = true <-> 0 <= p < Z.of_nat (length a).
Proof. unfold in_area. lia. Qed.

Arguments load : simpl never.
Arguments store : simpl never.
Arguments in_area : simpl never.
Arguments uint : simpl never.
Arguments loop_fuel : simpl never.

(** Case analysis on the next access of [area] in an equation [H] stating
    that a piece of code finished. *)
Ltac next_access H :=
  match type of H with
  | context [load ?a ?p] =>
      match goal with
      | E : load a p = _ |- _ => rewrite E in H; simpl in H
      end
  | context [in_area ?a ?p] =>
      match goal with
      | E : in_area a p = _ |- _ => rewrite E in H; simpl in H
      end
  | context [load (store ?a ?p ?v) ?q] =>
      rewrite (load_store a p v q) in H
        by (apply in_area_true; assumption);
      destruct (Z.eq_dec p q); try (exfalso; lia); simpl in H
  | context [load ?a ?p] =>
      let E := fresh "Eld" in
      destruct (load a p) eqn:E; simpl in H; [|discriminate H]
  | context [in_area ?a ?p] =>
      let E := fresh "Ein" in
      destruct (in_area a p) eqn:E; simpl in H; [|discriminate H]
  end.

(** Running the code in the goal over the accesses known to succeed. *)
Ltac run_access :=
  repeat (simpl;
          match goal with
          | E : load ?a ?p = _ |- context [load ?a ?p] => rewrite E
          | E : in_area ?a ?p = _ |- context [in_area ?a ?p] => rewrite E
          end);
  simpl.

Ltac unfold_code :=
  unfold get, set, BOTTOM_SIZE, BOTTOM_STATUS, TOP_STATUS_OF_NEXT_BLOCK,
    TOP_SIZE_OF_NEXT_BLOCK, BLOCK_SIZE, PAYLOAD_SIZE, TOP_STATUS, TOP_SIZE,
    USER_PTR, get, set, bind, ret, rd, wr, out_of_fuel.

Tactic Notation "unfold_code" "in" hyp(H) :=
  unfold get, set, BOTTOM_SIZE, BOTTOM_STATUS, TOP_STATUS_OF_NEXT_BLOCK,
    TOP_SIZE_OF_NEXT_BLOCK, BLOCK_SIZE, PAYLOAD_SIZE, TOP_STATUS, TOP_SIZE,
    USER_PTR, get, set, bind, ret, rd, wr, out_of_fuel in H.

(** ** Tiling of [area] by blocks *)

Lemma block_at_range (a : area) (off st sz : Z) :
  area_ok a -> block_at a off st sz ->
  0 <= off /\ off + sz + 3 < BYTE_COUNT /\ 0 <= sz < 256 /\ 0 <= st < 256.
Proof.
  intros Hok (H0 & H1 & H2 & H3).
  pose proof (area_ok_length a Hok) as Hlen.
  pose proof (load_Some_range _ _ _ H0).
  pose proof (load_Some_range _ _ _ H3).
  pose proof (area_ok_byte _ _ _ Hok H0).
  pose proof (area_ok_byte _ _ _ Hok H1).
  lia.
Qed.

Lemma seg_total (a : area) (l : list block) (off off' : Z) :
  seg a off l off' -> off' = off + total l.
Proof.
  revert off. induction l as [|[st sz] l IH]; simpl; intros off.
  - lia.
  - intros [_ H]. apply IH in H. unfold CONTROL_FIELDS_SIZE. lia.
Qed.

Lemma seg_total_nonneg (a : area) (l : list block) (off off' : Z) :
  area_ok a -> seg a off l off' -> 0 <= total l.
Proof.
  intros Hok. revert off. induction l as [|[st sz] l IH]; simpl; intros off.
  - lia.
  - intros [Hb H]. apply IH in H.
    pose proof (block_at_range _ _ _ _ Hok Hb). unfold CONTROL_FIELDS_SIZE. lia.
Qed.

Lemma seg_app (a : area) (l1 l2 : list block) (off off' : Z) :
  seg a off (l1 ++ l2) off' <->
  seg a off l1 (off + total l1) /\ seg a (off + total l1) l2 off'.
Proof.
  revert off. induction l1 as [|[st sz] l1 IH]; simpl; intros off.
  - rewrite Z.add_0_r. tauto.
  - rewrite IH. unfold CONTROL_FIELDS_SIZE.
    replace (off + sz + 4 + total l1) with (off + (sz + 4 + total l1)) by lia.
    tauto.
Qed.

Lemma total_app (l1 l2 : list block) : total (l1 ++ l2) = total l1 + total l2.
Proof. induction l1 as [|[st sz] l1 IH]; simpl; lia. Qed.

(** A tiling only depends on the bytes it covers. *)
Lemma seg_frame (a a' : area) (l : list block) (off off' : Z) :
  area_ok a ->
  (forall i, off <= i < off' -> load a' i = load a i) ->
  seg a off l off' -> seg a' off l off'.
Proof.
  intros Hok. revert off. induction l as [|[st sz] l IH]; simpl; intros off Hfr.
  - done.
  - intros [Hb H].
    pose proof (block_at_range _ _ _ _ Hok Hb) as Hr.
    pose proof (seg_total _ _ _ _ H) as Ht.
    pose proof (seg_total_nonneg _ _ _ _ Hok H) as Hn.
    split.
    + destruct Hb as (H0 & H1 & H2 & H3).
      unfold block_at. rewrite !Hfr by lia. done.
    + apply IH; [|done]. intros i Hi. apply Hfr. lia.
Qed.

Lemma block_at_frame (a a' : area) (off st sz : Z) :
  (forall i, off <= i < off + sz + 4 -> load a' i = load a i) ->
  0 <= sz ->
  block_at a off st sz -> block_at a' off st sz.
Proof.
  intros Hfr Hsz (H0 & H1 & H2 & H3). unfold block_at.
  rewrite !Hfr by lia. done.
Qed.

Lemma place_app (off : Z) (l1 l2 : list block) :
  place off (l1 ++ l2) = place off l1 ++ place (off + total l1) l2.
Proof.
  revert off. induction l1 as [|[st sz] l1 IH]; simpl; intros off.
  - by rewrite Z.add_0_r.
  - rewrite IH. unfold CONTROL_FIELDS_SIZE. do 3 f_equal. lia.
Qed.

Lemma elem_of_place_split (off o : Z) (b : block) (l : list block) :
  (o, b) ∈ place off l ->
  exists pre post, l = pre ++ b :: post /\ o = off + total pre.
Proof.
  revert off. induction l as [|[st sz] l IH]; simpl; intros off Hin.
  - by apply elem_of_nil in Hin.
  - apply elem_of_cons in Hin as [Heq|Hin].
    + injection Heq as -> ->. exists [], l. simpl. split; [done|lia].
    + apply IH in Hin as (pre & post & -> & ->).
      exists ((st, sz) :: pre), post. simpl. unfold CONTROL_FIELDS_SIZE.
      split; [done|lia].
Qed.

(** ** [print_blocks] reports the tiling *)

Lemma print_blocks_loop_walk (a a' : area) (fuel : nat) (bp : Z)
    (bl : list block_info) :
  print_blocks_loop fuel bp a = Done bl a' -> a' = a /\ walk a bp bl.
Proof.
  revert bp bl. induction fuel as [|fuel IH]; intros bp bl; simpl.
  - destruct (Z.ltb_spec bp BYTE_COUNT) as [Hlt|Hge]; [discriminate|].
    unfold ret. intros H; injection H as <- <-. simpl. split; [done|lia].
  - destruct (Z.ltb_spec bp BYTE_COUNT) as [Hlt|Hge].
    + intros H. unfold_code in H. unfold CONTROL_FIELDS_SIZE in H.
      repeat next_access H.
      match type of H with context [print_blocks_loop ?f ?p ?m] =>
        destruct (print_blocks_loop f p m) as [rest a1| |] eqn:E;
          [|discriminate..] end.
      injection H as <- <-.
      apply IH in E as [-> Hw]. split; [done|]. simpl.
      match goal with |- context [bp + ?z + 4] =>
        replace (bp + z + 4) with (bp + (z + 4)) by lia end. done.
    + unfold ret. intros H; injection H as <- <-. simpl. split; [done|lia].
Qed.

Lemma walk_print_blocks_loop (a : area) (fuel : nat) (bp : Z)
    (bl : list block_info) :
  area_ok a -> walk a bp bl -> BYTE_COUNT - bp <= Z.of_nat fuel ->
  print_blocks_loop fuel bp a = Done bl a.
Proof.
  intros Hok. revert bp fuel. induction bl as [|b bl IH]; intros bp fuel; simpl.
  - intros Hge _. destruct fuel; simpl;
      destruct (Z.ltb_spec bp BYTE_COUNT); try lia; done.
  - intros (Hlt & Hoff & H0 & H1 & H2 & H3 & Hw) Hfuel.
    destruct fuel as [|fuel]; [lia|]. simpl.
    destruct (Z.ltb_spec bp BYTE_COUNT); [|lia].
    unfold_code. unfold CONTROL_FIELDS_SIZE. run_access.
    pose proof (area_ok_byte _ _ _ Hok H1).
    replace (bp + (b_top_size b + 4)) with (bp + b_top_size b + 4) by lia.
    rewrite (IH _ _ Hw) by lia.
    destruct b; simpl in *. by subst.
Qed.

Lemma seg_walk (a : area) (l : list block) (off : Z) :
  area_ok a -> seg a off l BYTE_COUNT -> walk a off (infos off l).
Proof.
  intros Hok. revert off. induction l as [|[st sz] l IH]; simpl; intros off.
  - lia.
  - intros [Hb H].
    pose proof (block_at_range _ _ _ _ Hok Hb) as Hr.
    destruct Hb as (H0 & H1 & H2 & H3).
    repeat split; try done; try lia. by apply IH.
Qed.

(** The walk of [print_blocks] over a tiled [area]. *)
Lemma print_blocks_seg (a : area) (l : list block) :
  area_ok a -> seg a 0 l BYTE_COUNT -> print_blocks a = Done (infos 0 l) a.
Proof.
  intros Hok Hs. unfold print_blocks.
  apply walk_print_blocks_loop; [done|by apply seg_walk|].
  unfold loop_fuel. lia.
Qed.

Lemma infos_consistent (off : Z) (l : list block) : Forall consistent (infos off l).
Proof.
  revert off. induction l as [|[st sz] l IH]; simpl; intros off; constructor.
  - by split.
  - apply IH.
Qed.

Lemma infos_contiguous (off : Z) (l : list block) :
  contiguous off (infos off l) (off + total l).
Proof.
  revert off. induction l as [|[st sz] l IH]; simpl; intros off.
  - lia.
  - split; [done|]. unfold block_size; simpl.
    replace (off + (sz + CONTROL_FIELDS_SIZE + total l))
      with (off + (sz + CONTROL_FIELDS_SIZE) + total l) by lia.
    unfold CONTROL_FIELDS_SIZE. 
    replace (off + sz + 4) with (off + (sz + 4)) by lia. apply IH.
Qed.

Lemma infos_sum (off : Z) (l : list block) :
  sum_block_sizes (infos off l) = total l.
Proof.
  revert off. induction l as [|[st sz] l IH]; simpl; intros off; [done|].
  unfold sum_block_sizes in *. simpl. rewrite IH. unfold block_size. simpl. lia.
Qed.

(** A walk whose blocks are consistent is a tiling. *)
Lemma walk_seg (a : area) (bl : list block_info) (off : Z) :
  area_ok a -> off <= BYTE_COUNT -> walk a off bl -> Forall consistent bl ->
  exists l, seg a off l BYTE_COUNT /\ bl = infos off l.
Proof.
  intros Hok. revert off. induction bl as [|b bl IH]; simpl; intros off Hle.
  - intros Hge _. exists []. simpl. split; [lia|done].
  - intros (Hlt & Hoff & H0 & H1 & H2 & H3 & Hw) Hc.
    apply Forall_cons in Hc as [[Hst Hsz] Hc].
    pose proof (area_ok_length a Hok) as Hlen.
    pose proof (load_Some_range _ _ _ H3) as Hr.
    assert (Hle' : off + b_top_size b + 4 <= BYTE_COUNT) by lia.
    destruct (IH _ Hle' Hw Hc) as (l & Hs & ->).
    exists ((b_top_status b, b_top_size b) :: l). simpl. split.
    + split; [|done]. unfold block_at. rewrite H0, H1, H2, H3.
      by rewrite <- Hst, <- Hsz.
    + destruct b; simpl in *. by subst.
Qed.

Lemma print_blocks_tiled (a : area) (bl : list block_info) :
  area_ok a -> print_blocks a = Done bl a -> Forall consistent bl ->
  exists l, seg a 0 l BYTE_COUNT /\ bl = infos 0 l.
Proof.
  intros Hok Hp Hc. apply print_blocks_loop_walk in Hp as [_ Hw].
  apply walk_seg; try done.
Qed.

(** ** [simple_allocate] *)

Lemma uint_small (x : Z) : 0 <= x < 2 ^ 32 -> uint x = x.
Proof. intros Hx. unfold uint. by apply Z.mod_small. Qed.

Ltac solve_len :=
  rewrite ?length_store; unfold BYTE_COUNT in *; lia.

(** Reading through the writes made so far. *)
Ltac ls :=
  repeat (rewrite load_store by solve_len);
  repeat (match goal with
          | |- context [Z.eq_dec ?x ?y] =>
              destruct (Z.eq_dec x y); try (exfalso; lia)
          end).

(** Running the accesses of the code in the goal one after the other. *)
Ltac exec_step :=
  simpl;
  match goal with
  | E : load ?a ?p = _ |- context [load ?a ?p] => rewrite E
  | |- context [load (store ?a ?p ?v) ?q] =>
      rewrite (load_store a p v q) by solve_len;
      destruct (Z.eq_dec p q); try (exfalso; lia)
  | |- context [in_area ?a ?p] =>
      rewrite (proj2 (in_area_true a p)) by solve_len
  | |- context [?v mod 256] => rewrite (Z.mod_small v 256) by solve_len
  end.

Ltac exec := repeat exec_step; simpl.

Lemma allocate_found_Done (a : area) (req bp s : Z) :
  area_ok a -> load a (bp + 1) = Some s ->
  0 <= bp -> bp + s + 2 < BYTE_COUNT ->
  (s - req < MIN_BLOCK_SIZE -> bp + s + 3 < BYTE_COUNT) ->
  0 <= req <= s ->
  exists a',
    allocate_found req bp a = Done (Some (bp + 2)) a' /\
    area_ok a' /\
    (forall i, i < bp \/ bp + s + 4 <= i -> load a' i = load a i) /\
    if s - req <? MIN_BLOCK_SIZE then
      load a' bp = Some ALLOCATED /\ load a' (bp + 1) = Some s /\
      load a' (bp + s + 2) = load a (bp + s + 2) /\
      load a' (bp + s + 3) = Some ALLOCATED
    else
      block_at a' bp ALLOCATED req /\
      load a' (bp + req + 4) = Some FREE /\
      load a' (bp + req + 5) = Some (s - req - 4) /\
      load a' (bp + s + 2) = Some (s - req - 4) /\
      load a' (bp + s + 3) = load a (bp + s + 3).
Proof.
  intros Hok Hs Hbp Hend Hend' Hreq.
  pose proof (area_ok_length a Hok) as Hlen.
  pose proof (area_ok_byte _ _ _ Hok Hs) as Hbyte.
  unfold allocate_found, MIN_BLOCK_SIZE, CONTROL_FIELDS_SIZE, ALLOCATED, FREE in *.
  unfold_code. unfold HEADER_SIZE. run_access.
  rewrite (uint_small (s - req)) by lia.
  destruct (Z.ltb_spec (s - req) 6) as [Hw|Hsp].
  - exec.
    eexists. split; [done|]. split; [by repeat apply area_ok_store|].
    split; [intros i Hi; by ls|].
    repeat split; ls; done.
  - run_access. rewrite ?(uint_small (s - req)) by lia.
    rewrite (uint_small (s - req - 4)) by lia.
    exec.
    eexists. split; [done|]. split; [by repeat apply area_ok_store|].
    split; [intros i Hi; by ls|].
    unfold block_at.
    repeat split; ls; rewrite ?Z.mod_small by lia; done.
Qed.

Lemma allocate_found_inv (a a' : area) (req bp s : Z) (r : option Z) :
  area_ok a -> load a (bp + 1) = Some s -> 0 <= req <= s ->
  allocate_found req bp a = Done r a' ->
  0 <= bp /\ bp + s + 2 < BYTE_COUNT /\
  (s - req < MIN_BLOCK_SIZE -> bp + s + 3 < BYTE_COUNT).
Proof.
  intros Hok Hs Hreq H.
  pose proof (area_ok_length a Hok) as Hlen.
  pose proof (area_ok_byte _ _ _ Hok Hs) as Hbyte.
  unfold allocate_found, MIN_BLOCK_SIZE, CONTROL_FIELDS_SIZE, ALLOCATED, FREE in *.
  unfold_code in H. unfold HEADER_SIZE in H. next_access H.
  rewrite (uint_small (s - req)) in H by lia.
  destruct (Z.ltb_spec (s - req) 6) as [Hw|Hsp]; repeat next_access H;
    repeat match goal with
           | E : in_area _ _ = true |- _ =>
               apply (proj1 (in_area_true _ _)) in E;
               rewrite ?length_store in E
           end;
    unfold BYTE_COUNT in *; lia.
Qed.

Lemma allocate_test_Done (a : area) (req bp st sz : Z) :
  load a bp = Some st -> load a (bp + 1) = Some sz ->
  allocate_test req bp a = Done (fits req (st, sz)) a.
Proof.
  intros H0 H1. unfold allocate_test, fits. unfold_code. run_access.
  destruct (st =? FREE); run_access; done.
Qed.

Lemma allocate_test_inv (a a' : area) (req bp : Z) (b : bool) :
  allocate_test req bp a = Done b a' ->
  a' = a /\ exists st, load a bp = Some st /\
    if b then st = FREE /\ exists sz, load a (bp + 1) = Some sz /\ req <= sz
    else forall sz, load a (bp + 1) = Some sz -> fits req (st, sz) = false.
Proof.
  intros H. unfold allocate_test in H. unfold_code in H. next_access H.
  destruct (Z.eqb_spec z FREE) as [->|Hne].
  - next_access H. injection H as <- <-. split; [done|].
    exists FREE. split; [done|].
    destruct (Z.leb_spec req z) as [Hle|Hgt].
    + split; [done|]. by exists z.
    + intros sz Hsz. injection Hsz as <-. unfold fits. simpl. lia.
  - injection H as <- <-. split; [done|]. exists z. split; [done|].
    intros sz _. unfold fits. simpl. destruct (Z.eqb_spec z FREE); done.
Qed.

(** What is known when the search returns. *)
Lemma allocate_loop_inv (a a' : area) (fuel : nat) (req bp : Z) (r : option Z) :
  area_ok a -> 0 <= req ->
  allocate_loop fuel req bp a = Done r a' ->
  match r with
  | None => a' = a
  | Some h =>
      exists s, bp <= h - 2 /\ load a (h - 2) = Some FREE /\
        load a (h - 2 + 1) = Some s /\ req <= s /\
        allocate_found req (h - 2) a = Done (Some h) a'
  end.
Proof.
  intros Hok Hreq. revert bp.
  induction fuel as [|fuel IH]; intros bp; simpl;
    destruct (Z.ltb_spec bp BYTE_COUNT) as [Hlt|Hge];
    try (intros H; by injection H as <- <-); try discriminate.
  unfold bind at 1.
  destruct (allocate_test req bp a) as [b a1| |] eqn:Ht; try discriminate.
  apply allocate_test_inv in Ht as [-> (st & Hst & Hb)].
  destruct b.
  - destruct Hb as (-> & sz & Hsz & Hle). intros H.
    destruct (allocate_found_inv _ _ _ _ _ _ Hok Hsz (conj Hreq Hle) H)
      as (Hbp & He & He').
    destruct (allocate_found_Done _ req _ _ Hok Hsz Hbp He He' (conj Hreq Hle))
      as (a2 & Hd & _).
    rewrite Hd in H. injection H as <- <-.
    exists sz. replace (bp + 2 - 2) with bp by lia. repeat split; try done; lia.
  - unfold BLOCK_SIZE. unfold_code. intros H. next_access H.
    pose proof (area_ok_byte _ _ _ Hok Eld) as Hb'.
    apply IH in H. destruct r as [h|]; [|done].
    destruct H as (s & Hle & H). exists s. split; [|done].
    unfold CONTROL_FIELDS_SIZE in Hle. lia.
Qed.

Lemma BLOCK_SIZE_Done (a : area) (bp sz : Z) :
  load a (bp + 1) = Some sz -> BLOCK_SIZE bp a = Done (sz + 4) a.
Proof. intros H. unfold BLOCK_SIZE. unfold_code. by run_access. Qed.

Lemma allocate_loop_step (a : area) (fuel : nat) (req bp st sz : Z) :
  bp < BYTE_COUNT -> load a bp = Some st -> load a (bp + 1) = Some sz ->
  allocate_loop (S fuel) req bp a =
    if fits req (st, sz) then allocate_found req bp a
    else allocate_loop fuel req (bp + sz + 4) a.
Proof.
  intros Hlt H0 H1. simpl.
  destruct (Z.ltb_spec bp BYTE_COUNT) as [_|?]; [|lia].
  unfold bind at 1. rewrite (allocate_test_Done _ _ _ _ _ H0 H1).
  destruct (fits req (st, sz)); [done|].
  unfold bind. rewrite (BLOCK_SIZE_Done _ _ _ H1).
  by replace (bp + (sz + 4)) with (bp + sz + 4) by lia.
Qed.

(** The search of [simple_allocate] over a tiled [area] does what
    [allocate_blocks] does on the block list. *)
Lemma allocate_loop_refines (a : area) (req : Z) :
  area_ok a -> 0 <= req ->
  forall (l : list block) (off : Z) (fuel : nat),
    seg a off l BYTE_COUNT -> BYTE_COUNT - off <= Z.of_nat fuel ->
    match allocate_blocks off req l with
    | Some (h, l') =>
        exists a', allocate_loop fuel req off a = Done (Some h) a' /\
          area_ok a' /\ seg a' off l' BYTE_COUNT /\
          (forall i, i < off -> load a' i = load a i)
    | None => allocate_loop fuel req off a = Done None a
    end.
Proof.
  intros Hok Hreq. induction l as [|[st sz] l IH]; intros off fuel; simpl.
  - intros -> _. destruct fuel; simpl; done.
  - intros [Hb Hs] Hfuel.
    pose proof (block_at_range _ _ _ _ Hok Hb) as Hr.
    pose proof (seg_total _ _ _ _ Hs) as Ht.
    pose proof (seg_total_nonneg _ _ _ _ Hok Hs) as Hn.
    destruct Hb as (H0 & H1 & H2 & H3).
    destruct fuel as [|fuel]; [lia|].
    rewrite (allocate_loop_step a fuel req off st sz) by (done || lia).
    destruct (fits req (st, sz)) eqn:Hfit.
    + unfold fits in Hfit. simpl in Hfit.
      apply andb_true_iff in Hfit as [Hst Hle].
      apply Z.eqb_eq in Hst. apply Z.leb_le in Hle. subst st.
      destruct (allocate_found_Done a req off sz Hok H1) as (a' & Hd & Hok' & Hfr & Hres);
        try lia.
      exists a'. unfold USER_PTR, HEADER_SIZE. split; [done|]. split; [done|].
      split; [|intros i Hi; apply Hfr; lia].
      assert (Hpost : seg a' (off + sz + 4) l BYTE_COUNT).
      { eapply seg_frame; [exact Hok| |exact Hs]. intros i Hi. apply Hfr. lia. }
      unfold allocated_from. simpl.
      unfold MIN_BLOCK_SIZE, CONTROL_FIELDS_SIZE, ALLOCATED, FREE in *.
      destruct (Z.ltb_spec (sz - req) 6) as [Hw|Hsp]; simpl.
      * destruct Hres as (R0 & R1 & R2 & R3).
        unfold block_at. rewrite R0, R1, R2, R3, H2. done.
      * destruct Hres as (Rb & R0 & R1 & R2 & R3).
        split; [done|]. split.
        -- unfold block_at.
           replace (off + req + 4 + 1) with (off + req + 5) by lia.
           replace (off + req + 4 + (sz - req - 4) + 2) with (off + sz + 2) by lia.
           replace (off + req + 4 + (sz - req - 4) + 3) with (off + sz + 3) by lia.
           rewrite R0, R1, R2, R3, H3. done.
        -- replace (off + req + 4 + (sz - req - 4) + 4) with (off + sz + 4) by lia.
           done.
    + specialize (IH (off + sz + 4) fuel Hs).
      destruct (allocate_blocks (off + sz + 4) req l) as [[h l']|].
      * destruct IH as (a' & Hd & Hok' & Hs' & Hfr); [lia|].
        exists a'. split; [done|]. split; [done|]. split.
        -- simpl. split; [|done].
           eapply block_at_frame; [|lia|done]. intros i Hi. apply Hfr. lia.
        -- intros i Hi. apply Hfr. lia.
      * apply IH. lia.
Qed.

Lemma allocate_blocks_Some (off req : Z) (l l' : list block) (h : Z) :
  allocate_blocks off req l = Some (h, l') ->
  exists pre b post,
    l = pre ++ b :: post /\ Forall (fun x => fits req x = false) pre /\
    fits req b = true /\ h = USER_PTR (off + total pre) /\
    l' = pre ++ allocated_from req b ++ post.
Proof.
  revert off l'. induction l as [|[st sz] l IH]; intros off l'; simpl; [done|].
  destruct (fits req (st, sz)) eqn:Hfit.
  - intros H; injection H as <- <-. exists [], (st, sz), l. simpl.
    rewrite Z.add_0_r. repeat split; try done.
  - destruct (allocate_blocks (off + sz + 4) req l) as [[h' l'']|] eqn:E; [|done].
    intros H; injection H as <- <-.
    apply IH in E as (pre & b & post & -> & Hpre & Hb & -> & ->).
    exists ((st, sz) :: pre), b, post. simpl. repeat split; try done.
    + by constructor.
    + unfold USER_PTR, CONTROL_FIELDS_SIZE. lia.
Qed.

Lemma allocate_blocks_None (off req : Z) (l : list block) :
  allocate_blocks off req l = None <-> Forall (fun x => fits req x = false) l.
Proof.
  revert off. induction l as [|[st sz] l IH]; intros off; simpl.
  - split; [constructor|done].
  - destruct (fits req (st, sz)) eqn:Hfit.
    + split; [done|]. intros H. apply Forall_cons in H as [H _]. congruence.
    + specialize (IH (off + sz + 4)).
      destruct (allocate_blocks (off + sz + 4) req l) as [[h' l'']|].
      * split; [done|]. intros H. apply Forall_cons in H as [_ H].
        apply IH in H. done.
      * split; [|done]. intros _. constructor; [done|]. by apply IH.
Qed.

(** No block of a tiled [area] has a payload above
    [BYTE_COUNT - CONTROL_FIELDS_SIZE]: the early rejection of
    [simple_allocate] agrees with the search. *)
Lemma seg_no_fit_large (a : area) (req : Z) (l : list block) (off : Z) :
  area_ok a -> seg a off l BYTE_COUNT ->
  BYTE_COUNT - CONTROL_FIELDS_SIZE < req ->
  allocate_blocks off req l = None.
Proof.
  intros Hok Hs Hreq. apply allocate_blocks_None.
  revert off Hs. induction l as [|[st sz] l IH]; intros off; simpl.
  - constructor.
  - intros [Hb Hs]. constructor; [|by eapply IH].
    pose proof (block_at_range _ _ _ _ Hok Hb) as Hr.
    unfold fits. simpl. unfold BYTE_COUNT, CONTROL_FIELDS_SIZE in *.
    destruct (st =? FREE); simpl; lia.
Qed.

Lemma simple_allocate_refines (a : area) (req : Z) (l : list block) :
  area_ok a -> 0 <= req -> seg a 0 l BYTE_COUNT ->
  match allocate_blocks 0 req l with
  | Some (h, l') =>
      exists a', simple_allocate req a = Done (Some h) a' /\
        area_ok a' /\ seg a' 0 l' BYTE_COUNT
  | None => simple_allocate req a = Done None a
  end.
Proof.
  intros Hok Hreq Hs. unfold simple_allocate.
  destruct (Z.gtb_spec req (BYTE_COUNT - CONTROL_FIELDS_SIZE)) as [Hgt|Hle].
  - rewrite (seg_no_fit_large a req l 0 Hok Hs) by lia. done.
  - pose proof (allocate_loop_refines a req Hok Hreq l 0 loop_fuel Hs) as H.
    destruct (allocate_blocks 0 req l) as [[h l']|].
    + destruct H as (a' & Hd & Hok' & Hs' & _); [unfold loop_fuel; lia|].
      by exists a'.
    + apply H. unfold loop_fuel. lia.
Qed.

(** ** [simple_release] *)

Lemma valid_area_addr_ge (area_addr : Z) :
  valid_area_addr area_addr -> 65536 <= area_addr.
Proof.
  intros [Hpos Hmod]. pose proof (Z_div_mod_eq_full area_addr 65536). lia.
Qed.

(** [left_block] is a pointer into or next to [area], never the null pointer:
    the first loop of [simple_release] is not entered. *)
Lemma release_left_loop_skip (area_addr : Z) (a : area) (fuel : nat)
    (bp t : Z) :
  valid_area_addr area_addr -> - 65535 < bp ->
  release_left_loop area_addr fuel bp t a = Done (bp, t) a.
Proof.
  intros Hv Hbp. apply valid_area_addr_ge in Hv.
  destruct fuel; cbn [release_left_loop]; unfold FREE;
    destruct (Z.eqb_spec (area_addr + bp - 1) 0); try lia; done.
Qed.

Lemma ends_allocated_app (l : list block) (b : block) :
  fst b <> FREE -> ends_allocated (l ++ [b]).
Proof. intros Hb. exists b. by rewrite last_snoc. Qed.

Lemma ends_allocated_tail (st sz : Z) (l : list block) :
  ends_allocated ((st, sz) :: l) -> st = FREE -> ends_allocated l.
Proof.
  intros (b & Hl & Hb) ->. destruct l as [|b' l].
  - simpl in Hl. injection Hl as <-. done.
  - exists b. by rewrite last_cons_cons in Hl.
Qed.

(** The second loop of [simple_release] absorbs the free blocks that follow
    the released one. *)
Lemma release_right_loop_absorb (a : area) (bp : Z) :
  area_ok a ->
  forall (l : list block) (t : Z) (fuel : nat),
    seg a (bp + t + 4) l BYTE_COUNT -> ends_allocated l ->
    BYTE_COUNT - (bp + t + 4) <= Z.of_nat fuel ->
    release_right_loop fuel bp t a = Done (fst (absorb t l)) a /\
    seg a (bp + fst (absorb t l) + 4) (snd (absorb t l)) BYTE_COUNT /\
    ends_allocated (snd (absorb t l)) /\
    t <= fst (absorb t l) /\
    (fst (absorb t l) = t \/ load a (bp + fst (absorb t l) + 3) = Some FREE).
Proof.
  intros Hok. induction l as [|[st sz] l IH]; intros t fuel Hs He Hfuel.
  - destruct He as (b & Hl & _). discriminate Hl.
  - destruct Hs as [Hb Hs].
    pose proof (block_at_range _ _ _ _ Hok Hb) as Hr.
    destruct Hb as (H0 & H1 & H2 & H3).
    assert (Hstep : release_right_loop fuel bp t a =
              if st =? FREE then
                match fuel with
                | O => OutOfFuel
                | S fuel' => release_right_loop fuel' bp (sz + t + 4) a
                end
              else Done t a).
    { destruct fuel; simpl; unfold_code; rewrite H0;
        destruct (st =? FREE); try done.
      replace (bp + 5 + t) with (bp + t + 4 + 1) by lia. by rewrite H1. }
    rewrite Hstep. clear Hstep. simpl.
    destruct (Z.eqb_spec st FREE) as [->|Hne].
    + destruct fuel as [|fuel]; [lia|].
      replace (bp + t + 4 + sz + 4) with (bp + (sz + t + 4) + 4) in Hs by lia.
      destruct (IH (sz + t + 4) fuel Hs) as (Hd & Hs' & He' & Hle & Hfree).
      { by eapply ends_allocated_tail. }
      { lia. }
      split; [done|]. split; [done|]. split; [done|]. split; [lia|].
      right. destruct Hfree as [->|Hfree]; [|done].
      by replace (bp + (sz + t + 4) + 3) with (bp + t + 4 + sz + 3) by lia.
    + simpl. split; [done|]. split; [by split|]. split; [done|].
      split; [lia|by left].
Qed.

(** [simple_release] on a tiled [area]: the block of the user pointer
    becomes free and takes in the free blocks after it; the blocks before it
    are left as they are. *)
Lemma simple_release_effect (area_addr : Z) (a : area)
    (pre post : list block) (st s : Z) :
  valid_area_addr area_addr -> area_ok a ->
  seg a 0 (pre ++ (st, s) :: post) BYTE_COUNT ->
  ends_allocated post ->
  exists a',
    simple_release area_addr (USER_PTR (total pre)) a = Done tt a' /\
    area_ok a' /\
    seg a' 0 (pre ++ released s post) BYTE_COUNT /\
    s <= fst (absorb s post) /\
    (forall i,
       i <> total pre -> i <> total pre + 1 -> i <> total pre + s + 3 ->
       i <> total pre + fst (absorb s post) + 2 ->
       load a' i = load a i).
Proof.
  intros Hv Hok Hs He. unfold simple_release.
  remember loop_fuel as fuel eqn:Hfuel.
  assert (Hf : Z.of_nat fuel = BYTE_COUNT) by (by rewrite Hfuel).
  clear Hfuel.
  apply seg_app in Hs as [Hpre [Hb Hpost]]. rewrite Z.add_0_l in *.
  set (bp := total pre) in *.
  pose proof (area_ok_length a Hok) as Hlen.
  pose proof (block_at_range _ _ _ _ Hok Hb) as Hr.
  pose proof (seg_total_nonneg _ _ _ _ Hok Hpre) as Hbp. fold bp in Hbp.
  destruct Hb as (H0 & H1 & H2 & H3).
  set (a2 := store (store a bp 0) (bp + s + 3) 0).
  assert (Hok2 : area_ok a2) by (by repeat apply area_ok_store).
  pose proof (area_ok_length a2 Hok2) as Hlen2.
  assert (Hpost2 : seg a2 (bp + s + 4) post BYTE_COUNT).
  { eapply seg_frame; [exact Hok| |exact Hpost]. intros i Hi. unfold a2. by ls. }
  destruct (release_right_loop_absorb a2 bp Hok2 post s fuel Hpost2 He)
    as (Hd & Hrest & He' & Hle & Hfree); [lia|].
  set (T := fst (absorb s post)) in *. set (rest := snd (absorb s post)) in *.
  assert (HT : bp + T + 4 < BYTE_COUNT).
  { destruct He' as (b & Hl & _). destruct rest as [|[st' sz] rest']; [done|].
    destruct Hrest as [Hb' _].
    pose proof (block_at_range _ _ _ _ Hok2 Hb'). lia. }
  exists (store (store a2 (bp + 1) T) (bp + T + 2) T).
  split.
  - unfold_code. unfold HEADER_SIZE, FREE.
    replace (bp + 2 - 2) with bp by lia. exec. fold a2.
    rewrite release_left_loop_skip by (done || lia). simpl.
    rewrite Hd. exec. done.
  - split; [by repeat apply area_ok_store|]. split.
    + apply seg_app. rewrite Z.add_0_l. fold bp. split.
      * eapply seg_frame; [exact Hok| |exact Hpre].
        intros i Hi. unfold a2. by ls.
      * unfold released. fold T rest. split.
        -- unfold block_at, FREE. repeat split.
           ++ unfold a2. ls. done.
           ++ ls. by rewrite Z.mod_small by solve_len.
           ++ ls. by rewrite Z.mod_small by solve_len.
           ++ destruct Hfree as [HTs|Hfree].
              ** unfold a2. rewrite HTs. ls. done.
              ** unfold FREE in Hfree. rewrite <- Hfree. by ls.
        -- eapply seg_frame; [exact Hok2| |exact Hrest]. intros i Hi. by ls.
    + split; [done|]. intros i Hi0 Hi1 Hi2 Hi3. unfold a2. by ls.
Qed.

Lemma simple_release_refines (area_addr : Z) (a : area)
    (pre post : list block) (s : Z) :
  valid_area_addr area_addr -> area_ok a ->
  seg a 0 (pre ++ (ALLOCATED, s) :: post) BYTE_COUNT ->
  ends_allocated post ->
  exists a',
    simple_release area_addr (USER_PTR (total pre)) a = Done tt a' /\
    area_ok a' /\
    seg a' 0 (pre ++ released s post) BYTE_COUNT /\
    (forall i, i < total pre -> load a' i = load a i).
Proof.
  intros Hv Hok Hs He.
  destruct (simple_release_effect area_addr a pre post ALLOCATED s Hv Hok Hs He)
    as (a' & Hd & Hok' & Hs' & Hle & Hfr).
  apply seg_app in Hs as [Hpre [Hb0 _]].
  pose proof (seg_total_nonneg _ _ _ _ Hok Hpre) as Hn.
  pose proof (block_at_range _ _ _ _ Hok Hb0) as Hr0.
  exists a'. repeat split; try done. intros i Hi. apply Hfr; lia.
Qed.

(** The address of [area] matters to [simple_release] only through the
    test of its first loop, which fails at every valid address. *)
Lemma simple_release_addr_indep (addr addr' : Z) (a : area) (user_ptr : Z) :
  valid_area_addr addr -> valid_area_addr addr' ->
  simple_release addr user_ptr a = simple_release addr' user_ptr a.
Proof.
  intros Hv Hv'. unfold simple_release.
  remember loop_fuel as fuel eqn:Hfuel. clear Hfuel.
  unfold_code. unfold HEADER_SIZE.
  destruct (load a (user_ptr - 2 + 1)) as [s|] eqn:E; simpl; [|done].
  pose proof (load_Some_range _ _ _ E) as Hr.
  destruct (in_area a (user_ptr - 2)); simpl; [|done].
  match goal with |- context [load ?m ?p] => destruct (load m p); simpl; [|done] end.
  match goal with |- context [in_area ?m ?p] => destruct (in_area m p); simpl; [|done] end.
  by rewrite !release_left_loop_skip by (done || lia).
Qed.

(** ** [simple_init] *)

Lemma simple_init_Done (a : area) :
  area_ok a ->
  exists a', simple_init a = Done tt a' /\ area_ok a' /\
    seg a' 0 [sentinel; (FREE, 244); sentinel] BYTE_COUNT.
Proof.
  intros Hok. pose proof (area_ok_length a Hok) as Hlen.
  unfold simple_init, ALLOCATED, FREE. unfold_code.
  unfold BYTE_COUNT in *. simpl Z.sub. exec.
  eexists. split; [done|]. split; [by repeat apply area_ok_store|].
  unfold sentinel, ALLOCATED, FREE. simpl. unfold block_at. simpl.
  repeat split; ls; done.
Qed.

(** ** The invariant of the reachable states *)

Lemma allocate_blocks_snoc_sentinel (off req : Z) (l : list block) :
  allocate_blocks off req (l ++ [sentinel]) =
  match allocate_blocks off req l with
  | Some (h, l') => Some (h, l' ++ [sentinel])
  | None => None
  end.
Proof.
  revert off. induction l as [|[st sz] l IH]; intros off; simpl; [done|].
  destruct (fits req (st, sz)).
  - by rewrite <- app_assoc.
  - rewrite IH. by destruct (allocate_blocks (off + sz + 4) req l) as [[h l']|].
Qed.

Lemma allocate_blocks_sentinels (req : Z) (mid : list block) :
  allocate_blocks 0 req (sentinel :: mid ++ [sentinel]) =
  match allocate_blocks 4 req mid with
  | Some (h, l') => Some (h, sentinel :: l' ++ [sentinel])
  | None => None
  end.
Proof.
  simpl. rewrite allocate_blocks_snoc_sentinel.
  change (0 + 0 + 4) with 4.
  by destruct (allocate_blocks 4 req mid) as [[h l']|].
Qed.

Lemma total_allocated_from (req : Z) (b : block) :
  total (allocated_from req b) = snd b + 4.
Proof.
  unfold allocated_from. destruct (snd b - req <? MIN_BLOCK_SIZE); simpl;
    unfold CONTROL_FIELDS_SIZE; lia.
Qed.

Lemma absorb_snoc (t : Z) (l : list block) (b : block) :
  fst b <> FREE ->
  absorb t (l ++ [b]) = (fst (absorb t l), snd (absorb t l) ++ [b]).
Proof.
  intros Hb. revert t. induction l as [|[st sz] l IH]; intros t; simpl.
  - destruct b as [st sz]. simpl in *. by destruct (Z.eqb_spec st FREE).
  - destruct (st =? FREE); [apply IH|done].
Qed.

Lemma absorb_place (off t o : Z) (b : block) (l : list block) :
  fst b <> FREE -> (o, b) ∈ place (off + t + 4) l ->
  (o, b) ∈ place (off + fst (absorb t l) + 4) (snd (absorb t l)).
Proof.
  intros Hb. revert t. induction l as [|[st sz] l IH]; intros t; simpl; [done|].
  intros Hin. destruct (Z.eqb_spec st FREE) as [->|Hne]; [|done].
  apply elem_of_cons in Hin as [Heq|Hin].
  - injection Heq as _ ->. done.
  - apply IH. by replace (off + (sz + t + 4) + 4) with (off + t + 4 + sz + 4) by lia.
Qed.

Lemma inv_init (a a' : area) :
  area_ok a -> simple_init a = Done tt a' -> inv (Sys a' []).
Proof.
  intros Hok Hd. destruct (simple_init_Done a Hok) as (a1 & Hd1 & Hok1 & Hs).
  rewrite Hd in Hd1. injection Hd1 as <-.
  split; [done|]. exists [(FREE, 244)]. split; [done|].
  intros h Hh. by apply elem_of_nil in Hh.
Qed.

Lemma inv_allocate (s : sys) (req : Z) :
  inv s -> 0 <= req ->
  exists r a',
    simple_allocate req (mem s) = Done r a' /\
    inv (Sys a' (match r with Some h => h :: live s | None => live s end)).
Proof.
  intros (Hok & mid & Hs & Hlive) Hreq.
  pose proof (simple_allocate_refines _ req _ Hok Hreq Hs) as H.
  rewrite allocate_blocks_sentinels in H.
  destruct (allocate_blocks 4 req mid) as [[h mid']|] eqn:E.
  - destruct H as (a' & Hd & Hok' & Hs').
    exists (Some h), a'. split; [done|]. split; [done|].
    exists mid'. split; [done|]. simpl.
    apply allocate_blocks_Some in E as (pre & b & post & -> & _ & Hb & -> & ->).
    unfold fits in Hb. apply andb_true_iff in Hb as [Hst _].
    apply Z.eqb_eq in Hst.
    intros h' Hh'.
    apply elem_of_cons in Hh' as [->|Hh'].
    + exists (if snd b - req <? MIN_BLOCK_SIZE then snd b else req).
      rewrite place_app, elem_of_app. right.
      unfold USER_PTR. replace (4 + total pre + HEADER_SIZE - HEADER_SIZE)
        with (4 + total pre) by lia.
      unfold allocated_from. destruct (snd b - req <? MIN_BLOCK_SIZE); simpl;
        apply elem_of_cons; by left.
    + destruct (Hlive h' Hh') as (sz & Hin). exists sz.
      rewrite place_app, elem_of_app in Hin.
      rewrite place_app, place_app, !elem_of_app, total_allocated_from.
      destruct Hin as [Hin|Hin]; [by left|].
      destruct b as [st z]. simpl in *. apply elem_of_cons in Hin as [Heq|Hin].
      * injection Heq as _ Hst' _. unfold ALLOCATED, FREE in *. lia.
      * right. right.
        by replace (4 + total pre + (z + 4)) with (4 + total pre + z + 4) by lia.
  - exists None, (mem s). split; [done|]. split; [done|]. by exists mid.
Qed.

Lemma inv_release (area_addr : Z) (s : sys) (user_ptr : Z) :
  valid_area_addr area_addr -> inv s -> user_ptr ∈ live s ->
  exists a',
    simple_release area_addr user_ptr (mem s) = Done tt a' /\
    inv (Sys a' (filter (fun h => h <> user_ptr) (live s))) /\
    (forall i, i < user_ptr - HEADER_SIZE -> load a' i = load (mem s) i).
Proof.
  intros Hv (Hok & mid & Hs & Hlive) Hin.
  destruct (Hlive _ Hin) as (sz & Hblk).
  apply elem_of_place_split in Hblk as (pre & post & -> & Hoff).
  assert (Hs' : seg (mem s) 0 ((sentinel :: pre) ++ (ALLOCATED, sz) :: post ++ [sentinel])
                  BYTE_COUNT).
  { by rewrite <- app_assoc in Hs. }
  destruct (simple_release_refines area_addr _ _ _ _ Hv Hok Hs')
    as (a' & Hd & Hok' & Hseg & Hfr).
  { by apply ends_allocated_app. }
  assert (Hptr : USER_PTR (total (sentinel :: pre)) = user_ptr).
  { unfold USER_PTR. simpl. unfold CONTROL_FIELDS_SIZE. lia. }
  rewrite Hptr in Hd. exists a'. split; [done|].
  split; [|intros i Hi; apply Hfr; rewrite <- Hptr in Hi; unfold USER_PTR in Hi; lia].
  split; [done|].
  unfold released in Hseg. rewrite absorb_snoc in Hseg by done. simpl in Hseg.
  exists (pre ++ (FREE, fst (absorb sz post)) :: snd (absorb sz post)).
  split.
  { simpl. by rewrite <- app_assoc. }
  simpl. intros h Hh. apply list_elem_of_filter in Hh as [Hne Hh].
  destruct (Hlive h Hh) as (z & Hz). exists z.
  rewrite place_app, elem_of_app in Hz. rewrite place_app, elem_of_app.
  destruct Hz as [Hz|Hz]; [by left|]. right. simpl in Hz. simpl.
  apply elem_of_cons in Hz as [Heq|Hz].
  - injection Heq as Heq _. lia.
  - apply elem_of_cons. right. by apply absorb_place.
Qed.

Lemma reachable_inv (area_addr : Z) (s : sys) :
  valid_area_addr area_addr -> reachable area_addr s -> inv s.
Proof.
  intros Hv Hr. induction Hr as [a a' Hok Hd|s req r a' Hr IH Hreq Hd|s h a' Hr IH Hin Hd].
  - by eapply inv_init.
  - destruct (inv_allocate s req IH) as (r' & a1 & Hd1 & Hinv); [apply Hreq|].
    rewrite Hd in Hd1. by injection Hd1 as <- <-.
  - destruct (inv_release area_addr s h Hv IH Hin) as (a1 & Hd1 & Hinv & _).
    rewrite Hd in Hd1. by injection Hd1 as <-.
Qed.

Lemma infos_app (off : Z) (l1 l2 : list block) :
  infos off (l1 ++ l2) = infos off l1 ++ infos (off + total l1) l2.
Proof.
  revert off. induction l1 as [|[st sz] l1 IH]; simpl; intros off.
  - by rewrite Z.add_0_r.
  - rewrite IH. unfold CONTROL_FIELDS_SIZE. do 3 f_equal. lia.
Qed.

(** ** The iteration budget is never used up *)

(** Case analysis on every access of straight-line code in the goal. *)
Ltac all_accesses :=
  repeat (simpl;
          match goal with
          | |- context [load ?m ?p] => destruct (load m p)
          | |- context [in_area ?m ?p] => destruct (in_area m p)
          | |- context [if ?c then _ else _] => destruct c
          end);
  simpl.

Lemma allocate_found_fuel (a : area) (req bp : Z) :
  allocate_found req bp a <> OutOfFuel.
Proof. unfold allocate_found. unfold_code. all_accesses; discriminate. Qed.

Lemma allocate_loop_fuel (a : area) (req : Z) (fuel : nat) (bp : Z) :
  area_ok a -> BYTE_COUNT - bp <= Z.of_nat fuel ->
  allocate_loop fuel req bp a <> OutOfFuel.
Proof.
  intros Hok. revert bp. induction fuel as [|fuel IH]; intros bp Hfuel; simpl;
    destruct (Z.ltb_spec bp BYTE_COUNT) as [Hlt|Hge]; try lia; try discriminate.
  unfold bind at 1.
  destruct (allocate_test req bp a) as [b a1| |] eqn:Ht; try discriminate.
  - apply allocate_test_inv in Ht as [-> _]. destruct b.
    + apply allocate_found_fuel.
    + unfold BLOCK_SIZE. unfold_code.
      destruct (load a (bp + 1)) as [sz|] eqn:E; simpl; [|discriminate].
      pose proof (area_ok_byte _ _ _ Hok E). apply IH.
      unfold CONTROL_FIELDS_SIZE. lia.
  - exfalso. revert Ht. unfold allocate_test. unfold_code.
    all_accesses; discriminate.
Qed.

(** [simple_allocate] comes back: with a result, or by touching a byte
    outside [area]. *)
Lemma simple_allocate_terminates (a : area) (req : Z) :
  area_ok a -> simple_allocate req a <> OutOfFuel.
Proof.
  intros Hok. unfold simple_allocate.
  destruct (req >? BYTE_COUNT - CONTROL_FIELDS_SIZE); [discriminate|].
  apply allocate_loop_fuel; [done|]. unfold loop_fuel. lia.
Qed.

Lemma print_blocks_loop_fuel (a : area) (fuel : nat) (bp : Z) :
  area_ok a -> BYTE_COUNT - bp <= Z.of_nat fuel ->
  print_blocks_loop fuel bp a <> OutOfFuel.
Proof.
  intros Hok. revert bp. induction fuel as [|fuel IH]; intros bp Hfuel; simpl;
    destruct (Z.ltb_spec bp BYTE_COUNT) as [Hlt|Hge]; try lia; try discriminate.
  unfold_code. unfold CONTROL_FIELDS_SIZE.
  destruct (load a bp) as [ts|]; simpl; [|discriminate].
  destruct (load a (bp + 1)) as [tz|] eqn:E; simpl; [|discriminate].
  pose proof (area_ok_byte _ _ _ Hok E).
  rewrite ?E; simpl.
  destruct (load a (bp + tz + 2)) as [bz|]; simpl; [|discriminate].
  rewrite ?E; simpl.
  destruct (load a (bp + tz + 3)) as [bs|]; simpl; [|discriminate].
  rewrite ?E; simpl.
  specialize (IH (bp + (tz + 4)) ltac:(lia)).
  destruct (print_blocks_loop fuel (bp + (tz + 4)) a); done.
Qed.

Lemma print_blocks_terminates (a : area) :
  area_ok a -> print_blocks a <> OutOfFuel.
Proof.
  intros Hok. apply print_blocks_loop_fuel; [done|]. unfold loop_fuel. lia.
Qed.

(** Every value of [t_size] that the second loop of [simple_release] goes on
    with has passed a read of [area] at [block_ptr + t_size + 4]: [t_size]
    stays within the range of [int]. *)
Lemma release_right_loop_fuel (a : area) (fuel : nat) (bp t : Z) :
  area_ok a -> BYTE_COUNT - (bp + t + 4) <= Z.of_nat fuel ->
  match release_right_loop fuel bp t a with
  | Done t' a' => a' = a /\ 0 <= bp + t' + 4 < BYTE_COUNT
  | Fault => True
  | OutOfFuel => False
  end.
Proof.
  intros Hok. pose proof (area_ok_length a Hok) as Hlen. revert t.
  induction fuel as [|fuel IH]; intros t Hfuel; simpl; unfold_code;
    destruct (load a (bp + t + 4)) as [st|] eqn:E; simpl; try done;
    pose proof (load_Some_range _ _ _ E) as Hr;
    destruct (st =? FREE); try (split; [done|lia]); try lia.
  destruct (load a (bp + 5 + t)) as [s|] eqn:E'; simpl; [|done].
  pose proof (area_ok_byte _ _ _ Hok E'). apply IH. lia.
Qed.

(** [simple_release] comes back as well, whatever pointer it is given. *)
Lemma simple_release_terminates (area_addr : Z) (a : area) (user_ptr : Z) :
  valid_area_addr area_addr -> area_ok a ->
  simple_release area_addr user_ptr a <> OutOfFuel.
Proof.
  intros Hv Hok. unfold simple_release.
  remember loop_fuel as fuel eqn:Hfuel.
  assert (Hf : Z.of_nat fuel = BYTE_COUNT) by (by rewrite Hfuel).
  clear Hfuel. unfold_code. unfold HEADER_SIZE.
  destruct (load a (user_ptr - 2 + 1)) as [s|] eqn:E; simpl; [|discriminate].
  destruct (in_area a (user_ptr - 2)) eqn:Ein; simpl; [|discriminate].
  apply in_area_true in Ein.
  match goal with |- context [load ?m ?p] =>
    destruct (load m p) as [s'|] eqn:E'; simpl; [|discriminate] end.
  match goal with |- context [in_area ?m ?p] =>
    destruct (in_area m p) eqn:Ein'; simpl; [|discriminate] end.
  apply in_area_true in Ein'. rewrite length_store in Ein'.
  rewrite release_left_loop_skip by (done || lia). simpl.
  match goal with |- context [release_right_loop fuel ?b ?t ?m] =>
    pose proof (release_right_loop_fuel m fuel b t) as Hright;
    destruct (release_right_loop fuel b t m) as [t' m'| |] end;
    [|discriminate|].
  - all_accesses; discriminate.
  - exfalso. apply Hright; [by repeat apply area_ok_store|].
    pose proof (area_ok_byte _ _ _ Hok E). lia.
Qed.

(** What a successful call of [simple_allocate] did, on any contents of
    [area]. *)
Lemma simple_allocate_Some_inv (a a' : area) (req h : Z) :
  area_ok a -> 0 <= req ->
  simple_allocate req a = Done (Some h) a' ->
  exists s,
    load a (h - 2) = Some FREE /\ load a (h - 2 + 1) = Some s /\
    req <= s /\ 0 <= h - 2 /\ h - 2 + s + 2 < BYTE_COUNT /\
    area_ok a' /\
    (forall i, i < h - 2 \/ h - 2 + s + 4 <= i -> load a' i = load a i) /\
    if s - req <? MIN_BLOCK_SIZE then
      h - 2 + s + 3 < BYTE_COUNT /\
      load a' (h - 2) = Some ALLOCATED /\ load a' (h - 2 + 1) = Some s /\
      load a' (h - 2 + s + 3) = Some ALLOCATED
    else
      block_at a' (h - 2) ALLOCATED req.
Proof.
  intros Hok Hreq H. unfold simple_allocate in H.
  destruct (req >? BYTE_COUNT - CONTROL_FIELDS_SIZE); [discriminate H|].
  apply (allocate_loop_inv _ _ _ _ _ _ Hok Hreq) in H
    as (s & Hbp & Hst & Hsz & Hle & Hfound).
  destruct (allocate_found_inv _ _ _ _ _ _ Hok Hsz (conj Hreq Hle) Hfound)
    as (Hoff & He & He').
  destruct (allocate_found_Done _ req _ _ Hok Hsz Hoff He He' (conj Hreq Hle))
    as (a1 & Hd & Hok1 & Hfr & Hres).
  rewrite Hfound in Hd. injection Hd as _ <-.
  exists s. do 6 (split; [done|]). split; [done|].
  destruct (Z.ltb_spec (s - req) MIN_BLOCK_SIZE) as [Hw|Hsp].
  - destruct Hres as (R0 & R1 & _ & R3). split; [by apply He'|done].
  - by destruct Hres as (Rb & _).
Qed.

(** * The claims *)

(** ** C7: the blocks after initialization *)

(** C7, as stated: the free block made by [simple_init] would have payload
    size [BYTE_COUNT - 2 * CONTROL_FIELDS_SIZE].  On the zeroed array the
    blocks reported after [simple_init] are not those. *)
Lemma simple_init_payload_not_248 :
  ~ exists a',
      simple_init zero_area = Done tt a' /\
      print_blocks a' =
        Done (init_blocks (BYTE_COUNT - 2 * CONTROL_FIELDS_SIZE)) a'.
Proof.
  intros (a' & Hi & Hp). vm_compute in Hi. injection Hi as <-.
  vm_compute in Hp. discriminate Hp.
Qed.

(** C7, amended: after [simple_init] the walk finds exactly three blocks, a
    sentinel at offset 0 (allocated, payload 0), one free block at offset 4
    of payload size [BYTE_COUNT - 3 * CONTROL_FIELDS_SIZE = 244], whose
    block size is [BYTE_COUNT - 2 * CONTROL_FIELDS_SIZE], and a sentinel at
    the top (allocated, payload 0), each with matching header and trailer. *)
Theorem simple_init_blocks (a : area) :
  area_ok a ->
  exists a',
    simple_init a = Done tt a' /\
    print_blocks a' =
      Done (init_blocks (BYTE_COUNT - 3 * CONTROL_FIELDS_SIZE)) a' /\
    Forall consistent (init_blocks (BYTE_COUNT - 3 * CONTROL_FIELDS_SIZE)) /\
    BYTE_COUNT - 3 * CONTROL_FIELDS_SIZE = 244 /\
    block_size (Block 4 FREE 244 244 FREE)
      = BYTE_COUNT - 2 * CONTROL_FIELDS_SIZE.
Proof.
  intros Hok. destruct (simple_init_Done a Hok) as (a' & Hd & Hok' & Hs).
  exists a'. split; [done|]. split.
  - by rewrite (print_blocks_seg a' _ Hok' Hs).
  - split; [|done]. apply (infos_consistent 0 [sentinel; (FREE, 244); sentinel]).
Qed.

Lemma simple_init_blocks_witness :
  exists a',
    simple_init zero_area = Done tt a' /\
    print_blocks a' = Done (init_blocks 244) a'.
Proof.
  destruct (simple_init_blocks zero_area) as (a' & Hd & Hp & _).
  - reflexivity.
  - exists a'. split; [exact Hd|exact Hp].
Defined.

(** ** C6: rejection and failure leave [area] alone *)

(** C6: a request above [BYTE_COUNT - CONTROL_FIELDS_SIZE] is answered with
    [NULL] on any contents of [area] whatsoever, the empty array included,
    on which the first step of a search would already fault: no search takes
    place.  And every call that returns [NULL], for either reason, returns
    with [area] as it was. *)
Theorem simple_allocate_failure (a : area) (req_size : Z) :
  area_ok a -> is_uint req_size ->
  (BYTE_COUNT - CONTROL_FIELDS_SIZE < req_size ->
     (forall b : area, simple_allocate req_size b = Done None b) /\
     allocate_loop loop_fuel req_size 0 [] = Fault) /\
  (forall a', simple_allocate req_size a = Done None a' -> a' = a).
Proof.
  intros Hok [Hreq _]. split.
  - intros Hbig. split; [|done].
    intros b. unfold simple_allocate.
    destruct (Z.gtb_spec req_size (BYTE_COUNT - CONTROL_FIELDS_SIZE)); [done|lia].
  - intros a'. unfold simple_allocate.
    destruct (req_size >? BYTE_COUNT - CONTROL_FIELDS_SIZE).
    + intros H. by injection H as <-.
    + intros H. by apply (allocate_loop_inv _ _ _ _ _ _ Hok Hreq) in H.
Qed.

Lemma simple_allocate_failure_witness :
  simple_allocate 253 zero_area = Done None zero_area /\
  (forall a', simple_allocate 253 zero_area = Done None a' -> a' = zero_area).
Proof.
  destruct (simple_allocate_failure zero_area 253) as [Hbig Hsame].
  - reflexivity.
  - unfold is_uint. lia.
  - split; [|exact Hsame]. apply Hbig. unfold BYTE_COUNT, CONTROL_FIELDS_SIZE. lia.
Defined.

(** ** C5: the payload handed out fits the request *)

(** C5: when [simple_allocate] returns a user pointer, the block it belongs
    to is marked allocated, its payload lies inside [area], and its payload
    size is at least the request and at most [MIN_BLOCK_SIZE - 1] more. *)
Theorem simple_allocate_fit (a a' : area) (req_size user_ptr : Z) :
  area_ok a -> is_uint req_size ->
  simple_allocate req_size a = Done (Some user_ptr) a' ->
  exists payload_size,
    load a' (user_ptr - 1) = Some payload_size /\
    req_size <= payload_size <= req_size + (MIN_BLOCK_SIZE - 1) /\
    load a' (user_ptr - HEADER_SIZE) = Some ALLOCATED /\
    HEADER_SIZE <= user_ptr /\
    user_ptr + payload_size + 2 <= BYTE_COUNT.
Proof.
  intros Hok [Hreq _] H.
  destruct (simple_allocate_Some_inv _ _ _ _ Hok Hreq H)
    as (s & _ & _ & Hle & Hoff & _ & Hok1 & _ & Hres).
  pose proof (area_ok_length _ Hok1) as Hlen.
  unfold MIN_BLOCK_SIZE, HEADER_SIZE, BYTE_COUNT in *.
  replace (user_ptr - 1) with (user_ptr - 2 + 1) by lia.
  destruct (Z.ltb_spec (s - req_size) 6) as [Hw|Hsp].
  - destruct Hres as (He & R0 & R1 & _). exists s. repeat split; try done; lia.
  - destruct Hres as (R0 & R1 & _ & R3).
    pose proof (load_Some_range _ _ _ R3) as Hr.
    exists req_size. repeat split; try done; try lia.
Qed.

Lemma simple_allocate_fit_witness :
  exists payload_size,
    load (final_area (simple_allocate 12) fresh_area) (6 - 1)
      = Some payload_size /\
    12 <= payload_size <= 12 + (MIN_BLOCK_SIZE - 1) /\
    load (final_area (simple_allocate 12) fresh_area) (6 - HEADER_SIZE)
      = Some ALLOCATED /\
    HEADER_SIZE <= 6 /\
    6 + payload_size + 2 <= BYTE_COUNT.
Proof.
  apply (simple_allocate_fit fresh_area _ 12 6).
  - vm_compute. reflexivity.
  - unfold is_uint. lia.
  - vm_compute. reflexivity.
Defined.

(** ** C9: the two failures look the same *)


Lemma seg_sizes_nonneg (a : area) (l : list block) (off off' : Z) :
  area_ok a -> seg a off l off' -> Forall (fun b => 0 <= snd b) l.
Proof.
  intros Hok. revert off. induction l as [|[st sz] l IH]; intros off; simpl.
  - constructor.
  - intros [Hb Hs]. pose proof (block_at_range _ _ _ _ Hok Hb) as Hr.
    constructor; [simpl; lia|by eapply IH].
Qed.




(** ** C10: a request of zero bytes *)

Lemma elem_of_infos (off : Z) (l : list block) (x : block_info) :
  x ∈ infos off l -> (b_top_status x, b_top_size x) ∈ l.
Proof.
  revert off. induction l as [|[st sz] l IH]; simpl; intros off Hin.
  - by apply elem_of_nil in Hin.
  - apply elem_of_cons in Hin as [->|Hin]; apply elem_of_cons.
    + by left.
    + right. by eapply IH.
Qed.

(** C10: on the freshly initialized [area], [simple_allocate 0] splits the
    free block of 244 bytes: it returns the user pointer of an allocated
    block of payload size 0 at offset 4, with header and trailer agreeing,
    followed at once by a free block of payload size 240.  And on any tiled
    [area] that has a free block, [simple_allocate 0] returns a user
    pointer. *)
Theorem simple_allocate_zero (a a1 : area) :
  area_ok a -> simple_init a = Done tt a1 ->
  (exists a2,
     simple_allocate 0 a1 = Done (Some 6) a2 /\
     print_blocks a2 =
       Done [Block 0 ALLOCATED 0 0 ALLOCATED;
             Block 4 ALLOCATED 0 0 ALLOCATED;
             Block 8 FREE 240 240 FREE;
             Block 252 ALLOCATED 0 0 ALLOCATED] a2) /\
  (forall (b : area) (bl : list block_info),
     area_ok b -> print_blocks b = Done bl b -> Forall consistent bl ->
     (exists x, x ∈ bl /\ b_top_status x = FREE) ->
     exists h b', simple_allocate 0 b = Done (Some h) b').
Proof.
  intros Hok Hinit. split.
  - destruct (simple_init_Done a Hok) as (a' & Hd & Hok1 & Hs).
    rewrite Hinit in Hd. injection Hd as <-.
    pose proof (simple_allocate_refines a1 0 _ Hok1 ltac:(lia) Hs) as H.
    change (allocate_blocks 0 0 [sentinel; (FREE, 244); sentinel])
      with (Some (6, [sentinel; (ALLOCATED, 0); (FREE, 240); sentinel])) in H.
    destruct H as (a2 & Hd & Hok2 & Hs2). exists a2. split; [done|].
    by rewrite (print_blocks_seg a2 _ Hok2 Hs2).
  - intros b bl Hokb Hp Hc (x & Hx & Hfree).
    destruct (print_blocks_tiled b bl Hokb Hp Hc) as (l & Hs & ->).
    apply elem_of_infos in Hx. rewrite Hfree in Hx.
    pose proof (simple_allocate_refines b 0 l Hokb ltac:(lia) Hs) as H.
    destruct (allocate_blocks 0 0 l) as [[h l']|] eqn:E.
    + destruct H as (b' & Hd & _). by exists h, b'.
    + exfalso. apply allocate_blocks_None in E.
      rewrite Forall_forall in E. specialize (E _ Hx).
      pose proof (seg_sizes_nonneg _ _ _ _ Hokb Hs) as Hnn.
      rewrite Forall_forall in Hnn. specialize (Hnn _ Hx).
      unfold fits in E. simpl in *. lia.
Qed.

Lemma simple_allocate_zero_witness :
  exists a2,
    simple_allocate 0 fresh_area = Done (Some 6) a2 /\
    print_blocks a2 =
      Done [Block 0 ALLOCATED 0 0 ALLOCATED;
            Block 4 ALLOCATED 0 0 ALLOCATED;
            Block 8 FREE 240 240 FREE;
            Block 252 ALLOCATED 0 0 ALLOCATED] a2.
Proof.
  apply (simple_allocate_zero zero_area fresh_area).
  - vm_compute. reflexivity.
  - vm_compute. reflexivity.
Defined.

(** ** C8: what a successful allocation changes *)

(** C8: after a successful [simple_allocate] the walk reports the same
    blocks as before except for the free block that was found: it is
    replaced by itself marked allocated, or by an allocated block of the
    requested size followed by one new free block.  No byte outside the
    found block is written. *)
Theorem simple_allocate_frame (a a' : area) (req_size user_ptr : Z)
    (bl : list block_info) :
  area_ok a -> is_uint req_size ->
  print_blocks a = Done bl a -> Forall consistent bl ->
  simple_allocate req_size a = Done (Some user_ptr) a' ->
  exists pre found post,
    bl = pre ++ found :: post /\
    b_offset found = user_ptr - HEADER_SIZE /\
    b_top_status found = FREE /\
    print_blocks a' =
      Done (pre ++
            (if b_top_size found - req_size <? MIN_BLOCK_SIZE then
               [Block (b_offset found) ALLOCATED
                  (b_top_size found) (b_top_size found) ALLOCATED]
             else
               [Block (b_offset found) ALLOCATED req_size req_size ALLOCATED;
                Block (b_offset found + req_size + CONTROL_FIELDS_SIZE) FREE
                  (b_top_size found - req_size - CONTROL_FIELDS_SIZE)
                  (b_top_size found - req_size - CONTROL_FIELDS_SIZE) FREE])
            ++ post) a' /\
    (forall i,
       i < b_offset found \/ b_offset found + block_size found <= i ->
       load a' i = load a i).
Proof.
  intros Hok [Hreq _] Hp Hc Hd.
  destruct (print_blocks_tiled a bl Hok Hp Hc) as (l & Hs & ->).
  pose proof (simple_allocate_refines a req_size l Hok Hreq Hs) as H.
  destruct (allocate_blocks 0 req_size l) as [[h l']|] eqn:E;
    [|rewrite Hd in H; discriminate H].
  destruct H as (a1 & Hd1 & Hok1 & Hs1).
  rewrite Hd in Hd1. injection Hd1 as <- <-.
  apply allocate_blocks_Some in E as (lpre & [st sz] & lpost & -> & _ & Hfit & Hh & ->).
  unfold fits in Hfit. simpl in Hfit. apply andb_true_iff in Hfit as [Hst Hle].
  apply Z.eqb_eq in Hst. subst st. rewrite Z.add_0_l in Hh.
  exists (infos 0 lpre), (Block (total lpre) FREE sz sz FREE),
    (infos (total lpre + sz + 4) lpost).
  simpl. unfold USER_PTR, HEADER_SIZE in *.
  split. { rewrite infos_app. simpl. by rewrite Z.add_0_l. }
  split; [lia|]. split; [done|]. split.
  - rewrite (print_blocks_seg a' _ Hok1 Hs1). f_equal.
    rewrite !infos_app, total_allocated_from, Z.add_0_l. simpl.
    f_equal. f_equal; [|f_equal; lia].
    unfold allocated_from, CONTROL_FIELDS_SIZE. simpl.
    by destruct (sz - req_size <? MIN_BLOCK_SIZE).
  - destruct (simple_allocate_Some_inv _ _ _ _ Hok Hreq Hd)
      as (s & _ & Hsz & _ & _ & _ & _ & Hfr & _).
    apply seg_app in Hs as [_ [(_ & Hsz' & _) _]].
    rewrite Z.add_0_l in Hsz'.
    replace (user_ptr - 2) with (total lpre) in * by lia.
    rewrite Hsz in Hsz'. injection Hsz' as ->.
    unfold block_size, CONTROL_FIELDS_SIZE. simpl.
    intros i Hi. apply Hfr. lia.
Qed.

Lemma simple_allocate_frame_witness :
  exists pre found post,
    init_blocks 244 = pre ++ found :: post /\
    b_offset found = 6 - HEADER_SIZE /\
    b_top_status found = FREE /\
    print_blocks (final_area (simple_allocate 12) fresh_area) =
      Done (pre ++
            (if b_top_size found - 12 <? MIN_BLOCK_SIZE then
               [Block (b_offset found) ALLOCATED
                  (b_top_size found) (b_top_size found) ALLOCATED]
             else
               [Block (b_offset found) ALLOCATED 12 12 ALLOCATED;
                Block (b_offset found + 12 + CONTROL_FIELDS_SIZE) FREE
                  (b_top_size found - 12 - CONTROL_FIELDS_SIZE)
                  (b_top_size found - 12 - CONTROL_FIELDS_SIZE) FREE])
            ++ post) (final_area (simple_allocate 12) fresh_area) /\
    (forall i,
       i < b_offset found \/ b_offset found + block_size found <= i ->
       load (final_area (simple_allocate 12) fresh_area) i = load fresh_area i).
Proof.
  apply (simple_allocate_frame fresh_area _ 12 6 (init_blocks 244)).
  - vm_compute. reflexivity.
  - unfold is_uint. lia.
  - vm_compute. reflexivity.
  - repeat constructor.
  - vm_compute. reflexivity.
Defined.

(** ** C3: the invariant of the block list *)

(** C3: in every state reached from [simple_init] by calls of
    [simple_allocate] and of [simple_release] on live user pointers, the
    walk over [area] ends, every block it reports has header status and size
    equal to trailer status and size, the blocks follow one another from
    offset 0 to [BYTE_COUNT] without gap or overlap, and their block sizes
    add up to [BYTE_COUNT].  From such a state the next call of
    [simple_allocate], and of [simple_release] on a live user pointer,
    returns. *)
Theorem reachable_blocks_partition (area_addr : Z) (s : sys) :
  valid_area_addr area_addr -> reachable area_addr s ->
  (exists bl,
     print_blocks (mem s) = Done bl (mem s) /\
     Forall consistent bl /\
     contiguous 0 bl BYTE_COUNT /\
     sum_block_sizes bl = BYTE_COUNT) /\
  (forall req_size, is_uint req_size ->
     exists r a', simple_allocate req_size (mem s) = Done r a') /\
  (forall user_ptr, user_ptr ∈ live s ->
     exists a', simple_release area_addr user_ptr (mem s) = Done tt a').
Proof.
  intros Hv Hr. pose proof (reachable_inv _ _ Hv Hr) as Hinv.
  split; [|split].
  - destruct Hinv as (Hok & mid & Hs & _).
    exists (infos 0 (sentinel :: mid ++ [sentinel])).
    pose proof (seg_total _ _ _ _ Hs) as Ht. rewrite Z.add_0_l in Ht.
    split; [by apply print_blocks_seg|]. split; [apply infos_consistent|].
    split.
    + replace BYTE_COUNT with (0 + total (sentinel :: mid ++ [sentinel])) by lia.
      apply infos_contiguous.
    + by rewrite infos_sum.
  - intros req [Hreq _].
    destruct (inv_allocate s req Hinv Hreq) as (r & a' & Hd & _). by exists r, a'.
  - intros h Hh.
    destruct (inv_release area_addr s h Hv Hinv Hh) as (a' & Hd & _). by exists a'.
Qed.

Lemma reachable_blocks_partition_witness :
  exists bl,
    print_blocks
      (final_area (simple_release 65536 6)
         (final_area (simple_allocate 12)
            (final_area (simple_allocate 12) fresh_area)))
    = Done bl
        (final_area (simple_release 65536 6)
           (final_area (simple_allocate 12)
              (final_area (simple_allocate 12) fresh_area))) /\
    Forall consistent bl /\
    contiguous 0 bl BYTE_COUNT /\
    sum_block_sizes bl = BYTE_COUNT.
Proof.
  refine (proj1 (reachable_blocks_partition 65536
            (Sys (final_area (simple_release 65536 6)
                    (final_area (simple_allocate 12)
                       (final_area (simple_allocate 12) fresh_area)))
                 [22]) _ _)).
  - split; [lia|reflexivity].
  - apply (reach_release 65536
             (Sys (final_area (simple_allocate 12)
                     (final_area (simple_allocate 12) fresh_area)) [22; 6]) 6).
    + apply (reach_allocate 65536
               (Sys (final_area (simple_allocate 12) fresh_area) [6])
               12 (Some 22)).
      * apply (reach_allocate 65536 (Sys fresh_area []) 12 (Some 6)).
        -- apply (reach_init 65536 zero_area).
           ++ vm_compute. reflexivity.
           ++ vm_compute. reflexivity.
        -- unfold is_uint. lia.
        -- vm_compute. reflexivity.
      * unfold is_uint. lia.
      * vm_compute. reflexivity.
    + simpl. apply elem_of_cons. right. apply elem_of_cons. by left.
    + vm_compute. reflexivity.
Defined.

(** ** X18: allocate then release, from a single free block *)

Lemma infos_init_blocks (l : list block) (p : Z) :
  init_blocks p = infos 0 l -> l = [sentinel; (FREE, p); sentinel].
Proof.
  unfold init_blocks.
  destruct l as [|[st0 sz0] [|[st1 sz1] [|[st2 sz2] [|[st3 sz3] l]]]];
    simpl; intros H; try discriminate H.
  inversion H. by subst.
Qed.

(** X18: on any array, reachable or not, whose walk shows the two sentinels
    and a single free block between them, a successful [simple_allocate]
    followed at once by [simple_release] of the user pointer it returned
    gives back an array whose walk shows the same three blocks: the free
    block is whole again, with payload size 244. *)
Theorem allocate_release_round_trip (area_addr : Z) (a a' : area)
    (req_size user_ptr : Z) :
  valid_area_addr area_addr -> area_ok a -> is_uint req_size ->
  print_blocks a = Done (init_blocks 244) a ->
  simple_allocate req_size a = Done (Some user_ptr) a' ->
  exists a'',
    simple_release area_addr user_ptr a' = Done tt a'' /\
    print_blocks a'' = Done (init_blocks 244) a''.
Proof.
  intros Hv Hok [Hreq _] Hp Hd.
  destruct (print_blocks_tiled a _ Hok Hp) as (l & Hs & Hl).
  { repeat constructor. }
  apply infos_init_blocks in Hl. subst l.
  pose proof (simple_allocate_refines a req_size _ Hok Hreq Hs) as H.
  change [sentinel; (FREE, 244); sentinel]
    with (sentinel :: [(FREE, 244)] ++ [sentinel]) in H.
  rewrite (allocate_blocks_sentinels req_size [(FREE, 244)]) in H.
  simpl in H. unfold fits in H. simpl in H.
  destruct (Z.leb_spec req_size 244) as [Hle|Hgt];
    [|rewrite Hd in H; discriminate H].
  destruct H as (a1 & Hd1 & Hok1 & Hs1).
  rewrite Hd in Hd1. injection Hd1 as -> <-.
  unfold allocated_from in Hs1. simpl snd in Hs1.
  unfold MIN_BLOCK_SIZE, CONTROL_FIELDS_SIZE in Hs1.
  assert (Hfinal : forall post T,
            seg a' 0 ([sentinel] ++ (ALLOCATED, T) :: post) BYTE_COUNT ->
            ends_allocated post ->
            released T post = [(FREE, 244); sentinel] ->
            exists a'',
              simple_release area_addr (USER_PTR 4) a' = Done tt a'' /\
              print_blocks a'' = Done (init_blocks 244) a'').
  { intros post T Hseg He Hrel.
    destruct (simple_release_refines area_addr a' [sentinel] post T Hv Hok1 Hseg He)
      as (a2 & Hd2 & Hok2 & Hs2 & _).
    exists a2. split; [exact Hd2|].
    rewrite Hrel in Hs2. by rewrite (print_blocks_seg a2 _ Hok2 Hs2). }
  destruct (Z.ltb_spec (244 - req_size) 6) as [Hw|Hsp].
  - apply (Hfinal [sentinel] 244); [exact Hs1| |done].
    by apply (ends_allocated_app []).
  - apply (Hfinal [(FREE, 244 - req_size - 4); sentinel] req_size); [exact Hs1| |].
    + by apply (ends_allocated_app [(FREE, 244 - req_size - 4)]).
    + unfold released. simpl. do 2 f_equal. lia.
Qed.

Lemma allocate_release_round_trip_witness :
  exists a'',
    simple_release 65536 6 (final_area (simple_allocate 12) fresh_area)
      = Done tt a'' /\
    print_blocks a'' = Done (init_blocks 244) a''.
Proof.
  apply (allocate_release_round_trip 65536 fresh_area _ 12 6).
  - split; [lia|reflexivity].
  - vm_compute. reflexivity.
  - unfold is_uint. lia.
  - vm_compute. reflexivity.
  - vm_compute. reflexivity.
Defined.

(** ** C1 and C2: what [simple_release] leaves to its left *)

(** C1, on the calls of the test driver: after [simple_init], three
    allocations of 12 bytes and the release of the second, the first and the
    third block, the walk ends with two free blocks side by side, of payload
    sizes 28 and 212, where the claim has a single free block of 244. *)
Theorem release_leaves_adjacent_free (area_addr : Z) :
  valid_area_addr area_addr ->
  exists a1 a2 a3 a4 a5 a6 a7,
    simple_init zero_area = Done tt a1 /\
    simple_allocate 12 a1 = Done (Some 6) a2 /\
    simple_allocate 12 a2 = Done (Some 22) a3 /\
    simple_allocate 12 a3 = Done (Some 38) a4 /\
    simple_release area_addr 22 a4 = Done tt a5 /\
    simple_release area_addr 6 a5 = Done tt a6 /\
    simple_release area_addr 38 a6 = Done tt a7 /\
    print_blocks a7 =
      Done [Block 0 ALLOCATED 0 0 ALLOCATED;
            Block 4 FREE 28 28 FREE;
            Block 36 FREE 212 212 FREE;
            Block 252 ALLOCATED 0 0 ALLOCATED] a7 /\
    no_adjacent_free
      [Block 0 ALLOCATED 0 0 ALLOCATED;
       Block 4 FREE 28 28 FREE;
       Block 36 FREE 212 212 FREE;
       Block 252 ALLOCATED 0 0 ALLOCATED] = false.
Proof.
  intros Hv.
  assert (Hv0 : valid_area_addr 65536) by (split; [lia|reflexivity]).
  do 7 eexists.
  rewrite !(simple_release_addr_indep area_addr 65536 _ _ Hv Hv0).
  do 8 (split; [vm_compute; reflexivity|]).
  vm_compute. reflexivity.
Qed.

Lemma release_leaves_adjacent_free_witness :
  exists a7,
    (do _ <- simple_init ;;
     do _ <- simple_allocate 12 ;;
     do _ <- simple_allocate 12 ;;
     do _ <- simple_allocate 12 ;;
     do _ <- simple_release 65536 22 ;;
     do _ <- simple_release 65536 6 ;;
     do _ <- simple_release 65536 38 ;;
     print_blocks) zero_area =
      Done [Block 0 ALLOCATED 0 0 ALLOCATED;
            Block 4 FREE 28 28 FREE;
            Block 36 FREE 212 212 FREE;
            Block 252 ALLOCATED 0 0 ALLOCATED] a7.
Proof.
  destruct (release_leaves_adjacent_free 65536)
    as (a1 & a2 & a3 & a4 & a5 & a6 & a7 & H1 & H2 & H3 & H4 & H5 & H6 & H7 & H8 & _).
  - split; [lia|reflexivity].
  - exists a7. unfold bind.
    rewrite H1, H2, H3, H4, H5, H6, H7. exact H8.
Defined.

(** C2, on a release whose left neighbour is free: after [simple_init], two
    allocations of 12 bytes and the release of the first block, the trailer
    just before the head of the second block reads [FREE] with payload size
    12, so the left neighbour is the free block at offset 4 and not the
    bottom sentinel.  Releasing the second block leaves that neighbour as it
    is, a free block of payload size 12 at offset 4, and the released block
    still starts at offset 20, where the claim has one merged block starting
    at offset 4.  In no reachable state does [simple_release] write a byte
    before the head of the block it is given. *)
Theorem release_does_not_absorb_left (area_addr : Z) :
  valid_area_addr area_addr ->
  (forall s user_ptr a',
     reachable area_addr s -> user_ptr ∈ live s ->
     simple_release area_addr user_ptr (mem s) = Done tt a' ->
     forall i, i < user_ptr - HEADER_SIZE -> load a' i = load (mem s) i) /\
  exists a1 a2 a3 a4 a5,
    simple_init zero_area = Done tt a1 /\
    simple_allocate 12 a1 = Done (Some 6) a2 /\
    simple_allocate 12 a2 = Done (Some 22) a3 /\
    simple_release area_addr 6 a3 = Done tt a4 /\
    load a4 (22 - HEADER_SIZE - 1) = Some FREE /\
    load a4 (22 - HEADER_SIZE - 2) = Some 12 /\
    22 - HEADER_SIZE - CONTROL_FIELDS_SIZE - 12 = 4 /\
    simple_release area_addr 22 a4 = Done tt a5 /\
    print_blocks a5 =
      Done [Block 0 ALLOCATED 0 0 ALLOCATED;
            Block 4 FREE 12 12 FREE;
            Block 20 FREE 228 228 FREE;
            Block 252 ALLOCATED 0 0 ALLOCATED] a5.
Proof.
  intros Hv. split.
  { intros s h a' Hr Hin Hd.
    destruct (inv_release area_addr s h Hv (reachable_inv _ _ Hv Hr) Hin)
      as (a1 & Hd1 & _ & Hfr).
    rewrite Hd in Hd1. by injection Hd1 as <-. }
  assert (Hv0 : valid_area_addr 65536) by (split; [lia|reflexivity]).
  do 5 eexists.
  rewrite !(simple_release_addr_indep area_addr 65536 _ _ Hv Hv0).
  do 8 (split; [vm_compute; reflexivity|]).
  vm_compute. reflexivity.
Qed.

Lemma release_does_not_absorb_left_witness :
  exists a5,
    (do _ <- simple_init ;;
     do _ <- simple_allocate 12 ;;
     do _ <- simple_allocate 12 ;;
     do _ <- simple_release 65536 6 ;;
     do _ <- simple_release 65536 22 ;;
     print_blocks) zero_area =
      Done [Block 0 ALLOCATED 0 0 ALLOCATED;
            Block 4 FREE 12 12 FREE;
            Block 20 FREE 228 228 FREE;
            Block 252 ALLOCATED 0 0 ALLOCATED] a5.
Proof.
  destruct (release_does_not_absorb_left 65536)
    as (_ & a1 & a2 & a3 & a4 & a5 & H1 & H2 & H3 & H4 & _ & _ & _ & H5 & H6).
  - split; [lia|reflexivity].
  - exists a5. unfold bind. rewrite H1, H2, H3, H4, H5. exact H6.
Defined.

(** ** C4: allocate then release, with nothing outstanding *)

(** C4, on a state with no allocation outstanding: after [simple_init],
    three allocations of 12 bytes and the release of the second, the first
    and the third block, no user pointer is live and the walk shows two free
    blocks, of payload sizes 28 and 212, left side by side by the release
    that did not absorb its left neighbour.  From there an allocation of 12
    bytes followed at once by the release of its pointer ends with one free
    block of 244, which is not the state before the allocation; and an
    allocation of 100 bytes followed by the release of its pointer ends with
    the two free blocks again, which is not a single free block.  The claim
    has the state before restored, as a single free block, in both. *)
Theorem round_trip_from_fragmented (area_addr : Z) :
  valid_area_addr area_addr ->
  reachable area_addr (Sys fragmented_area []) /\
  print_blocks fragmented_area =
    Done [Block 0 ALLOCATED 0 0 ALLOCATED;
          Block 4 FREE 28 28 FREE;
          Block 36 FREE 212 212 FREE;
          Block 252 ALLOCATED 0 0 ALLOCATED] fragmented_area /\
  (exists a1 a2,
     simple_allocate 12 fragmented_area = Done (Some 6) a1 /\
     simple_release area_addr 6 a1 = Done tt a2 /\
     print_blocks a2 = Done (init_blocks 244) a2) /\
  (exists a1 a2,
     simple_allocate 100 fragmented_area = Done (Some 38) a1 /\
     simple_release area_addr 38 a1 = Done tt a2 /\
     print_blocks a2 =
       Done [Block 0 ALLOCATED 0 0 ALLOCATED;
             Block 4 FREE 28 28 FREE;
             Block 36 FREE 212 212 FREE;
             Block 252 ALLOCATED 0 0 ALLOCATED] a2).
Proof.
  intros Hv.
  assert (Hv0 : valid_area_addr 65536) by (split; [lia|reflexivity]).
  assert (Hu : is_uint 12) by (unfold is_uint; lia).
  split; [|split; [|split]].
  - apply (reach_release area_addr
             (Sys (final_area (simple_release 65536 6)
                     (final_area (simple_release 65536 22) three_blocks_area))
                  [38]) 38).
    + apply (reach_release area_addr
               (Sys (final_area (simple_release 65536 22) three_blocks_area)
                    [38; 6]) 6).
      * apply (reach_release area_addr (Sys three_blocks_area [38; 22; 6]) 22).
        -- apply (reach_allocate area_addr
                    (Sys (final_area (simple_allocate 12)
                            (final_area (simple_allocate 12) fresh_area))
                         [22; 6]) 12 (Some 38)); [|exact Hu|vm_compute; reflexivity].
           apply (reach_allocate area_addr
                    (Sys (final_area (simple_allocate 12) fresh_area) [6])
                    12 (Some 22)); [|exact Hu|vm_compute; reflexivity].
           apply (reach_allocate area_addr (Sys fresh_area []) 12 (Some 6));
             [|exact Hu|vm_compute; reflexivity].
           apply (reach_init area_addr zero_area); vm_compute; reflexivity.
        -- simpl. apply elem_of_cons. right. apply elem_of_cons. by left.
        -- rewrite (simple_release_addr_indep area_addr 65536 _ _ Hv Hv0).
           vm_compute. reflexivity.
      * simpl. apply elem_of_cons. right. apply elem_of_cons. by left.
      * rewrite (simple_release_addr_indep area_addr 65536 _ _ Hv Hv0).
        vm_compute. reflexivity.
    + simpl. apply elem_of_cons. by left.
    + rewrite (simple_release_addr_indep area_addr 65536 _ _ Hv Hv0).
      vm_compute. reflexivity.
  - vm_compute. reflexivity.
  - do 2 eexists.
    rewrite (simple_release_addr_indep area_addr 65536 _ _ Hv Hv0).
    do 2 (split; [vm_compute; reflexivity|]). vm_compute. reflexivity.
  - do 2 eexists.
    rewrite (simple_release_addr_indep area_addr 65536 _ _ Hv Hv0).
    do 2 (split; [vm_compute; reflexivity|]). vm_compute. reflexivity.
Qed.

Lemma round_trip_from_fragmented_witness :
  exists a1 a2,
    simple_allocate 12 fragmented_area = Done (Some 6) a1 /\
    simple_release 65536 6 a1 = Done tt a2 /\
    print_blocks a2 = Done (init_blocks 244) a2.
Proof.
  refine (proj1 (proj2 (proj2 (round_trip_from_fragmented 65536 _)))).
  split; [lia|reflexivity].
Defined.

(** * Further properties of the four functions *)

(** ** Helper facts on arrays and block lists *)

Lemma area_ext (a b : area) :
  length a = length b -> (forall i, load a i = load b i) -> a = b.
Proof.
  intros Hlen Hld. apply list_eq. intros i.
  specialize (Hld (Z.of_nat i)). unfold load in Hld.
  destruct (Z.leb_spec 0 (Z.of_nat i)); [|lia].
  by rewrite Nat2Z.id in Hld.
Qed.

Lemma store_same (a : area) (p v : Z) :
  load a p = Some (v mod 256) -> store a p v = a.
Proof.
  unfold load, store. destruct (0 <=? p); [|done]. apply list_insert_id.
Qed.

Lemma infos_inj (off : Z) (l l' : list block) :
  infos off l = infos off l' -> l = l'.
Proof.
  revert off l'. induction l as [|[st sz] l IH]; intros off [|[st' sz'] l'];
    simpl; intros H; try discriminate H; [done|].
  injection H as <- <- H. f_equal. by eapply IH.
Qed.

(** The tiling behind a walk that reported the blocks [infos 0 l]. *)
Lemma print_blocks_infos_seg (a : area) (l : list block) :
  area_ok a -> print_blocks a = Done (infos 0 l) a -> seg a 0 l BYTE_COUNT.
Proof.
  intros Hok Hp.
  destruct (print_blocks_tiled a _ Hok Hp (infos_consistent 0 l)) as (l' & Hs & Hl).
  apply infos_inj in Hl. by subst.
Qed.

Lemma walk_contiguous (a : area) (bl : list block_info) (off : Z) :
  area_ok a -> off <= BYTE_COUNT -> walk a off bl ->
  contiguous off bl BYTE_COUNT /\
  sum_block_sizes bl = BYTE_COUNT - off /\
  Forall (fun b => off <= b_offset b /\ 0 <= b_top_size b /\
                   b_offset b + block_size b <= BYTE_COUNT) bl.
Proof.
  intros Hok. pose proof (area_ok_length a Hok) as Hlen.
  revert off. induction bl as [|b bl IH]; simpl; intros off Hle.
  - intros Hge. split; [lia|]. split; [unfold sum_block_sizes; simpl; lia|].
    constructor.
  - intros (Hlt & Hoff & H0 & H1 & H2 & H3 & Hw).
    pose proof (load_Some_range _ _ _ H3) as Hr.
    pose proof (area_ok_byte _ _ _ Hok H1) as Hb.
    assert (Hle' : off + b_top_size b + 4 <= BYTE_COUNT) by lia.
    destruct (IH _ Hle' Hw) as (Hc & Hsum & Hall).
    unfold block_size, CONTROL_FIELDS_SIZE in *.
    split; [|split].
    + split; [done|]. by replace (off + (b_top_size b + 4))
        with (off + b_top_size b + 4) by lia.
    + unfold sum_block_sizes in *. simpl.
      unfold block_size, CONTROL_FIELDS_SIZE in *. lia.
    + constructor; [lia|]. eapply Forall_impl; [exact Hall|].
      simpl. intros x Hx. lia.
Qed.

(** ** X1: the walk of [print_blocks] *)

(** X1: whenever [print_blocks] gets through a byte array without reading
    outside it, it has left the array as it was, and the blocks it reported
    follow one another from offset 0 and end exactly at [BYTE_COUNT]: their
    block sizes add up to [BYTE_COUNT] and none reaches past the end, whether
    or not headers and trailers agree. *)
Theorem print_blocks_partitions (a a' : area) (bl : list block_info) :
  area_ok a -> print_blocks a = Done bl a' ->
  a' = a /\
  contiguous 0 bl BYTE_COUNT /\
  sum_block_sizes bl = BYTE_COUNT /\
  Forall (fun b => 0 <= b_offset b /\ 0 <= b_top_size b /\
                   b_offset b + block_size b <= BYTE_COUNT) bl.
Proof.
  intros Hok Hp. apply print_blocks_loop_walk in Hp as [-> Hw].
  destruct (walk_contiguous a bl 0 Hok ltac:(unfold BYTE_COUNT; lia) Hw)
    as (Hc & Hsum & Hall).
  split; [done|]. split; [done|]. split; [lia|done].
Qed.

Lemma print_blocks_partitions_witness :
  contiguous 0 (init_blocks 244) BYTE_COUNT /\
  sum_block_sizes (init_blocks 244) = BYTE_COUNT.
Proof.
  destruct (print_blocks_partitions fresh_area fresh_area (init_blocks 244))
    as (_ & Hc & Hsum & _).
  - vm_compute. reflexivity.
  - vm_compute. reflexivity.
  - split; [exact Hc|exact Hsum].
Defined.

(** ** X2: what [simple_init] touches *)

Lemma simple_init_explicit (a : area) :
  area_ok a ->
  simple_init a =
    Done tt
      (store (store (store (store (store (store (store (store (store (store
        (store (store a 0 1) 1 0) 2 0) 3 1) 4 0) 5 244) 250 244) 251 0)
        252 1) 253 0) 254 0) 255 1).
Proof.
  intros Hok. pose proof (area_ok_length a Hok) as Hlen.
  unfold simple_init, ALLOCATED, FREE. unfold_code.
  unfold BYTE_COUNT in *. simpl Z.sub. by exec.
Qed.

(** X2: [simple_init] writes the twelve control bytes at offsets 0 to 5 and
    250 to 255 and nothing else: every byte from offset 6 to 249 keeps its
    value.  Run a second time right away it changes nothing at all. *)
Theorem simple_init_frame_idempotent (a : area) :
  area_ok a ->
  exists a',
    simple_init a = Done tt a' /\
    area_ok a' /\
    (forall i, 6 <= i < BYTE_COUNT - 6 -> load a' i = load a i) /\
    simple_init a' = Done tt a'.
Proof.
  intros Hok. pose proof (area_ok_length a Hok) as Hlen.
  eexists. split; [by apply simple_init_explicit|].
  match goal with |- area_ok ?m /\ _ =>
    assert (Hok' : area_ok m) by (by repeat apply area_ok_store) end.
  split; [exact Hok'|]. split.
  - intros i Hi. unfold BYTE_COUNT in Hi. by ls.
  - rewrite (simple_init_explicit _ Hok'). f_equal.
    repeat (rewrite store_same; [|by ls]). done.
Qed.

Lemma simple_init_frame_idempotent_witness :
  simple_init fresh_area = Done tt fresh_area.
Proof.
  destruct (simple_init_frame_idempotent zero_area) as (a' & Hd & _ & _ & Hi).
  - vm_compute. reflexivity.
  - unfold fresh_area, final_area. rewrite Hd. exact Hi.
Defined.

(** ** X3 to X5: [simple_allocate] on a tiled array *)

Lemma Forall_infos (P : block -> Prop) (off : Z) (l : list block) :
  Forall (fun b => P (b_top_status b, b_top_size b)) (infos off l) <-> Forall P l.
Proof.
  revert off. induction l as [|[st sz] l IH]; simpl; intros off.
  - split; constructor.
  - rewrite !Forall_cons, IH. done.
Qed.

(** X3: on any array whose walk shows consistent blocks, sentinels or not,
    [simple_allocate] returns without touching a byte outside the array, and
    the walk over the array it leaves again shows consistent blocks that add
    up to [BYTE_COUNT]. *)
Theorem simple_allocate_keeps_tiling (a : area) (req_size : Z)
    (bl : list block_info) :
  area_ok a -> is_uint req_size ->
  print_blocks a = Done bl a -> Forall consistent bl ->
  exists r a' bl',
    simple_allocate req_size a = Done r a' /\
    area_ok a' /\
    print_blocks a' = Done bl' a' /\
    Forall consistent bl' /\
    sum_block_sizes bl' = BYTE_COUNT.
Proof.
  intros Hok [Hreq _] Hp Hc.
  destruct (print_blocks_tiled a bl Hok Hp Hc) as (l & Hs & ->).
  pose proof (simple_allocate_refines a req_size l Hok Hreq Hs) as H.
  destruct (allocate_blocks 0 req_size l) as [[h l']|].
  - destruct H as (a' & Hd & Hok' & Hs').
    exists (Some h), a', (infos 0 l'). split; [done|]. split; [done|].
    split; [by apply print_blocks_seg|]. split; [apply infos_consistent|].
    rewrite infos_sum. pose proof (seg_total _ _ _ _ Hs'). lia.
  - exists None, a, (infos 0 l). split; [done|]. split; [done|].
    split; [done|]. split; [done|].
    rewrite infos_sum. pose proof (seg_total _ _ _ _ Hs). lia.
Qed.

Lemma simple_allocate_keeps_tiling_witness :
  exists r a' bl',
    simple_allocate 100 fresh_area = Done r a' /\
    area_ok a' /\
    print_blocks a' = Done bl' a' /\
    Forall consistent bl' /\
    sum_block_sizes bl' = BYTE_COUNT.
Proof.
  apply (simple_allocate_keeps_tiling fresh_area 100 (init_blocks 244)).
  - vm_compute. reflexivity.
  - unfold is_uint. lia.
  - vm_compute. reflexivity.
  - repeat constructor.
Defined.

(** X4: the search is first fit.  On a tiled array the block whose user
    pointer [simple_allocate] returns was free and large enough, and no block
    before it in the walk was both free and large enough. *)
Theorem simple_allocate_first_fit (a a' : area) (req_size user_ptr : Z)
    (bl : list block_info) :
  area_ok a -> is_uint req_size ->
  print_blocks a = Done bl a -> Forall consistent bl ->
  simple_allocate req_size a = Done (Some user_ptr) a' ->
  exists pre found post,
    bl = pre ++ found :: post /\
    b_offset found = user_ptr - HEADER_SIZE /\
    b_top_status found = FREE /\
    req_size <= b_top_size found /\
    Forall (fun b => ~ (b_top_status b = FREE /\ req_size <= b_top_size b)) pre.
Proof.
  intros Hok [Hreq _] Hp Hc Hd.
  destruct (print_blocks_tiled a bl Hok Hp Hc) as (l & Hs & ->).
  pose proof (simple_allocate_refines a req_size l Hok Hreq Hs) as H.
  destruct (allocate_blocks 0 req_size l) as [[h l']|] eqn:E;
    [|rewrite Hd in H; discriminate H].
  destruct H as (a1 & Hd1 & _).
  rewrite Hd in Hd1. injection Hd1 as <- _.
  apply allocate_blocks_Some in E
    as (lpre & [st sz] & lpost & -> & Hpre & Hfit & Hh & _).
  unfold fits in Hfit. simpl in Hfit. apply andb_true_iff in Hfit as [Hst Hle].
  apply Z.eqb_eq in Hst. apply Z.leb_le in Hle. subst st.
  exists (infos 0 lpre), (Block (total lpre) FREE sz sz FREE),
    (infos (total lpre + sz + 4) lpost).
  simpl. unfold USER_PTR, HEADER_SIZE in *.
  split. { rewrite infos_app. simpl. by rewrite Z.add_0_l. }
  split; [lia|]. split; [done|]. split; [done|].
  apply (Forall_infos (fun b => ~ (fst b = FREE /\ req_size <= snd b))).
  eapply Forall_impl; [exact Hpre|]. intros [st z] Hf [Hst Hz]. simpl in *.
  unfold fits in Hf. simpl in Hf. subst st.
  apply andb_false_iff in Hf as [Hf|Hf]; [done|lia].
Qed.

Lemma simple_allocate_first_fit_witness :
  exists pre found post,
    init_blocks 244 = pre ++ found :: post /\
    b_offset found = 6 - HEADER_SIZE /\
    b_top_status found = FREE /\
    100 <= b_top_size found /\
    Forall (fun b => ~ (b_top_status b = FREE /\ 100 <= b_top_size b)) pre.
Proof.
  apply (simple_allocate_first_fit fresh_area
           (final_area (simple_allocate 100) fresh_area) 100 6 (init_blocks 244)).
  - vm_compute. reflexivity.
  - unfold is_uint. lia.
  - vm_compute. reflexivity.
  - repeat constructor.
  - vm_compute. reflexivity.
Defined.

(** X5: on a tiled array [simple_allocate] returns [NULL] exactly when the
    walk shows no block that is free with a payload of at least the
    requested size: a fitting free block anywhere is always found. *)
Theorem simple_allocate_null_iff_no_fit (a : area) (req_size : Z)
    (bl : list block_info) :
  area_ok a -> is_uint req_size ->
  print_blocks a = Done bl a -> Forall consistent bl ->
  simple_allocate req_size a = Done None a <->
  Forall (fun b => ~ (b_top_status b = FREE /\ req_size <= b_top_size b)) bl.
Proof.
  intros Hok [Hreq _] Hp Hc.
  destruct (print_blocks_tiled a bl Hok Hp Hc) as (l & Hs & ->).
  pose proof (simple_allocate_refines a req_size l Hok Hreq Hs) as H.
  rewrite (Forall_infos (fun b => ~ (fst b = FREE /\ req_size <= snd b))).
  assert (Hiff : allocate_blocks 0 req_size l = None <->
                 Forall (fun b => ~ (fst b = FREE /\ req_size <= snd b)) l).
  { rewrite allocate_blocks_None. apply Forall_iff. intros [st z].
    unfold fits. simpl. split.
    - intros Hf [-> Hz]. apply andb_false_iff in Hf as [Hf|Hf]; [done|lia].
    - intros Hn. destruct (Z.eqb_spec st FREE) as [->|?]; [|done]. simpl.
      apply Z.leb_gt. destruct (Z.le_gt_cases req_size z); [|lia].
      exfalso. by apply Hn. }
  rewrite <- Hiff.
  destruct (allocate_blocks 0 req_size l) as [[h l']|].
  - destruct H as (a' & Hd & _). rewrite Hd. split; intros; discriminate.
  - done.
Qed.

Lemma simple_allocate_null_iff_no_fit_witness :
  simple_allocate 250 fresh_area = Done None fresh_area <->
  Forall (fun b => ~ (b_top_status b = FREE /\ 250 <= b_top_size b))
    (init_blocks 244).
Proof.
  apply (simple_allocate_null_iff_no_fit fresh_area 250 (init_blocks 244)).
  - vm_compute. reflexivity.
  - unfold is_uint. lia.
  - vm_compute. reflexivity.
  - repeat constructor.
Defined.

(** ** X6 and X7: [simple_release] in a reachable state *)

Lemma absorb_spec (t : Z) (l : list block) :
  ends_allocated l ->
  exists absorbed nxt post,
    l = absorbed ++ nxt :: post /\
    Forall (fun b => fst b = FREE) absorbed /\
    fst nxt <> FREE /\
    absorb t l = (t + total absorbed, nxt :: post).
Proof.
  revert t. induction l as [|[st sz] l IH]; intros t He.
  - destruct He as (b & Hl & _). discriminate Hl.
  - simpl. destruct (Z.eqb_spec st FREE) as [->|Hne].
    + destruct (IH (sz + t + 4) (ends_allocated_tail _ _ _ He eq_refl))
        as (ab & nxt & post & -> & Hall & Hn & Ha).
      exists ((FREE, sz) :: ab), nxt, post. simpl.
      split; [done|]. split; [by constructor|]. split; [done|].
      rewrite Ha. f_equal. unfold CONTROL_FIELDS_SIZE. lia.
    + exists [], (st, sz), l. simpl. split; [done|]. split; [constructor|].
      split; [done|]. f_equal. lia.
Qed.

Lemma absorb_stop (t : Z) (b : block) (l : list block) :
  fst b <> FREE -> absorb t (b :: l) = (t, b :: l).
Proof.
  destruct b as [st sz]. simpl. intros Hne.
  by destruct (Z.eqb_spec st FREE).
Qed.

Lemma absorb_free (t z : Z) (l : list block) :
  absorb t ((FREE, z) :: l) = absorb (z + t + 4) l.
Proof. reflexivity. Qed.

Lemma ends_allocated_suffix (l1 l2 : list block) (b : block) :
  ends_allocated (l1 ++ b :: l2) -> ends_allocated (b :: l2).
Proof.
  intros (x & Hl & Hx). exists x. split; [|done].
  induction l1 as [|y l1 IH]; [done|]. apply IH.
  simpl in Hl. destruct (l1 ++ b :: l2) eqn:E; [|done].
  by destruct l1.
Qed.

Lemma Forall_infos_status (P : Z -> Prop) (off : Z) (l : list block) :
  Forall (fun b => P (fst b)) l -> Forall (fun b => P (b_top_status b)) (infos off l).
Proof.
  intros H. revert off. induction H as [|[st sz] l Hx _ IH]; simpl; intros off;
    by constructor.
Qed.

(** The state a live user pointer is released in: the walk before the
    call, cut at the block of the pointer, and the walk after it. *)
Lemma inv_release_blocks (area_addr : Z) (s : sys) (user_ptr : Z) :
  valid_area_addr area_addr -> inv s -> user_ptr ∈ live s ->
  exists a' lpre sz absorbed nxt lpost,
    simple_release area_addr user_ptr (mem s) = Done tt a' /\
    area_ok a' /\
    user_ptr - HEADER_SIZE = total lpre /\
    seg (mem s) 0 (lpre ++ (ALLOCATED, sz) :: absorbed ++ nxt :: lpost)
      BYTE_COUNT /\
    Forall (fun b => fst b = FREE) absorbed /\
    fst nxt <> FREE /\
    ends_allocated (nxt :: lpost) /\
    seg a' 0 (lpre ++ (FREE, sz + total absorbed) :: nxt :: lpost) BYTE_COUNT /\
    (forall i,
       i <> total lpre -> i <> total lpre + 1 -> i <> total lpre + sz + 3 ->
       i <> total lpre + (sz + total absorbed) + 2 ->
       load a' i = load (mem s) i) /\
    (forall h, h ∈ live s ->
       exists p, (h - HEADER_SIZE, (ALLOCATED, p))
                 ∈ place 0 (lpre ++ (ALLOCATED, sz) :: absorbed ++ nxt :: lpost)).
Proof.
  intros Hv (Hok & mid & Hs & Hlive) Hin.
  destruct (Hlive _ Hin) as (sz & Hblk).
  apply elem_of_place_split in Hblk as (pre & post & -> & Hoff).
  assert (He : ends_allocated (post ++ [sentinel])) by (by apply ends_allocated_app).
  destruct (absorb_spec sz _ He) as (ab & nxt & lpost & Hpost & Hall & Hn & Ha).
  assert (Hs' : seg (mem s) 0 ((sentinel :: pre) ++ (ALLOCATED, sz) :: post ++ [sentinel])
                  BYTE_COUNT).
  { by rewrite <- app_assoc in Hs. }
  destruct (simple_release_effect area_addr _ _ _ _ _ Hv Hok Hs' He)
    as (a' & Hd & Hok' & Hseg & _ & Hfr).
  assert (Ht : total (sentinel :: pre) = user_ptr - HEADER_SIZE).
  { simpl. unfold CONTROL_FIELDS_SIZE. lia. }
  assert (Hptr : USER_PTR (total (sentinel :: pre)) = user_ptr).
  { unfold USER_PTR. lia. }
  rewrite Hptr in Hd. unfold released in Hseg. rewrite Ha in *. simpl fst in *.
  simpl snd in *. rewrite Hpost in Hs'.
  exists a', (sentinel :: pre), sz, ab, nxt, lpost.
  split; [exact Hd|]. split; [exact Hok'|]. split; [by rewrite Ht|].
  split; [exact Hs'|]. split; [exact Hall|]. split; [exact Hn|].
  split; [rewrite Hpost in He; by apply (ends_allocated_suffix ab)|].
  split; [exact Hseg|]. split; [exact Hfr|].
  intros h0 Hh0. destruct (Hlive _ Hh0) as (p & Hp). exists p.
  rewrite <- Hpost. simpl. apply elem_of_cons. right.
  replace (pre ++ (ALLOCATED, sz) :: post ++ [sentinel])
    with ((pre ++ (ALLOCATED, sz) :: post) ++ [sentinel])
    by (by rewrite <- app_assoc).
  rewrite place_app. apply elem_of_app. by left.
Qed.

(** X6: in a reachable state, releasing a live user pointer marks its block
    free and merges into it every free block that follows directly: the walk
    afterwards shows the blocks before it unchanged, then one free block at
    the same offset whose payload size is the old one plus the block sizes
    of the absorbed blocks, then the first block that was not free, which is
    unchanged like all after it. *)
Theorem simple_release_merges_right (area_addr : Z) (s : sys) (user_ptr : Z) :
  valid_area_addr area_addr -> reachable area_addr s -> user_ptr ∈ live s ->
  exists a' pre old absorbed nxt post,
    simple_release area_addr user_ptr (mem s) = Done tt a' /\
    print_blocks (mem s) =
      Done (pre ++ old :: absorbed ++ nxt :: post) (mem s) /\
    b_offset old = user_ptr - HEADER_SIZE /\
    b_top_status old = ALLOCATED /\
    Forall (fun b => b_top_status b = FREE) absorbed /\
    b_top_status nxt <> FREE /\
    print_blocks a' =
      Done (pre ++
            Block (b_offset old) FREE
              (b_top_size old + sum_block_sizes absorbed)
              (b_top_size old + sum_block_sizes absorbed) FREE
            :: nxt :: post) a'.
Proof.
  intros Hv Hr Hin. pose proof (reachable_inv _ _ Hv Hr) as Hinv.
  destruct (inv_release_blocks area_addr s user_ptr Hv Hinv Hin)
    as (a' & lpre & sz & ab & [nst nsz] & lpost & Hd & Hok' & Hoff & Hs & Hall & Hn
        & _ & Hs' & _).
  destruct Hinv as (Hok & _).
  set (o := total lpre) in *.
  exists a', (infos 0 lpre), (Block o ALLOCATED sz sz ALLOCATED),
    (infos (o + sz + 4) ab),
    (Block (o + sz + 4 + total ab) nst nsz nsz nst),
    (infos (o + sz + 4 + total ab + nsz + 4) lpost).
  split; [done|]. split.
  { rewrite (print_blocks_seg _ _ Hok Hs). f_equal.
    rewrite infos_app. simpl. rewrite infos_app. simpl.
    by rewrite Z.add_0_l. }
  simpl. split; [lia|]. split; [done|].
  split. { by apply (Forall_infos_status (fun st => st = FREE)). }
  split; [done|].
  rewrite (print_blocks_seg _ _ Hok' Hs'). f_equal.
  rewrite infos_app. simpl. rewrite Z.add_0_l, infos_sum. fold o.
  replace (o + (sz + total ab) + 4) with (o + sz + 4 + total ab) by lia.
  done.
Qed.

Lemma simple_release_merges_right_witness :
  exists a' pre old absorbed nxt post,
    simple_release 65536 6 (final_area (simple_allocate 12) fresh_area)
      = Done tt a' /\
    print_blocks (final_area (simple_allocate 12) fresh_area) =
      Done (pre ++ old :: absorbed ++ nxt :: post)
        (final_area (simple_allocate 12) fresh_area) /\
    b_offset old = 6 - HEADER_SIZE /\
    b_top_status old = ALLOCATED /\
    Forall (fun b => b_top_status b = FREE) absorbed /\
    b_top_status nxt <> FREE /\
    print_blocks a' =
      Done (pre ++
            Block (b_offset old) FREE
              (b_top_size old + sum_block_sizes absorbed)
              (b_top_size old + sum_block_sizes absorbed) FREE
            :: nxt :: post) a'.
Proof.
  apply (simple_release_merges_right 65536
           (Sys (final_area (simple_allocate 12) fresh_area) [6]) 6).
  - split; [lia|reflexivity].
  - apply (reach_allocate 65536 (Sys fresh_area []) 12 (Some 6)).
    + apply (reach_init 65536 zero_area).
      * vm_compute. reflexivity.
      * vm_compute. reflexivity.
    + unfold is_uint. lia.
    + vm_compute. reflexivity.
  - simpl. apply elem_of_cons. by left.
Defined.

(** X7: releasing the same user pointer a second time does no harm: the
    second call returns and leaves every byte of the array as the first call
    left it. *)
Theorem simple_release_twice (area_addr : Z) (s : sys) (user_ptr : Z)
    (a' : area) :
  valid_area_addr area_addr -> reachable area_addr s -> user_ptr ∈ live s ->
  simple_release area_addr user_ptr (mem s) = Done tt a' ->
  simple_release area_addr user_ptr a' = Done tt a'.
Proof.
  intros Hv Hr Hin Hd. pose proof (reachable_inv _ _ Hv Hr) as Hinv.
  destruct (inv_release_blocks area_addr s user_ptr Hv Hinv Hin)
    as (a1 & lpre & sz & ab & nxt & lpost & Hd1 & Hok' & Hoff & Hs & Hall & Hn
        & He & Hs' & _).
  rewrite Hd in Hd1. injection Hd1 as <-.
  set (T := sz + total ab) in *.
  destruct (simple_release_effect area_addr a' lpre (nxt :: lpost) FREE T
              Hv Hok' Hs' He) as (a2 & Hd2 & Hok2 & Hs2 & _ & Hfr).
  unfold released in Hs2. rewrite (absorb_stop T nxt lpost Hn) in *.
  simpl fst in *. simpl snd in *.
  replace (USER_PTR (total lpre)) with user_ptr in Hd2
    by (unfold USER_PTR; lia).
  rewrite Hd2. f_equal.
  apply seg_app in Hs' as [_ [(A0 & A1 & A2 & A3) _]].
  apply seg_app in Hs2 as [_ [(B0 & B1 & B2 & B3) _]].
  rewrite Z.add_0_l in *.
  apply area_ext.
  { pose proof (area_ok_length _ Hok') as L1.
    pose proof (area_ok_length _ Hok2) as L2. lia. }
  intros i.
  destruct (Z.eq_dec i (total lpre)) as [->|N0]; [congruence|].
  destruct (Z.eq_dec i (total lpre + 1)) as [->|N1]; [congruence|].
  destruct (Z.eq_dec i (total lpre + T + 3)) as [->|N2]; [congruence|].
  destruct (Z.eq_dec i (total lpre + T + 2)) as [->|N3]; [congruence|].
  by apply Hfr.
Qed.

Lemma simple_release_twice_witness :
  simple_release 65536 6
    (final_area (simple_release 65536 6)
       (final_area (simple_allocate 12) fresh_area))
  = Done tt
      (final_area (simple_release 65536 6)
         (final_area (simple_allocate 12) fresh_area)).
Proof.
  apply (simple_release_twice 65536
           (Sys (final_area (simple_allocate 12) fresh_area) [6]) 6).
  - split; [lia|reflexivity].
  - apply (reach_allocate 65536 (Sys fresh_area []) 12 (Some 6)).
    + apply (reach_init 65536 zero_area).
      * vm_compute. reflexivity.
      * vm_compute. reflexivity.
    + unfold is_uint. lia.
    + vm_compute. reflexivity.
  - simpl. apply elem_of_cons. by left.
  - vm_compute. reflexivity.
Defined.

(** ** X8 to X12: what a user of the allocator can rely on *)

Lemma place_bounds (off o : Z) (b : block) (l : list block) :
  Forall (fun b' => 0 <= snd b') l -> (o, b) ∈ place off l ->
  off <= o /\ o + snd b + 4 <= off + total l /\ 0 <= snd b.
Proof.
  intros Hall. revert off. induction Hall as [|[st sz] l Hsz Hall IH];
    intros off Hin; simpl in *.
  - by apply elem_of_nil in Hin.
  - assert (0 <= total l).
    { clear -Hall. induction Hall as [|[st' sz'] l' H' _ IH']; simpl in *;
        unfold CONTROL_FIELDS_SIZE; lia. }
    unfold CONTROL_FIELDS_SIZE.
    apply elem_of_cons in Hin as [Heq|Hin].
    + injection Heq as -> ->. simpl. lia.
    + apply IH in Hin. lia.
Qed.

Lemma place_disjoint (off o1 o2 : Z) (b1 b2 : block) (l : list block) :
  Forall (fun b' => 0 <= snd b') l ->
  (o1, b1) ∈ place off l -> (o2, b2) ∈ place off l ->
  (o1 = o2 /\ b1 = b2) \/ o1 + snd b1 + 4 <= o2 \/ o2 + snd b2 + 4 <= o1.
Proof.
  intros Hall. revert off. induction Hall as [|[st sz] l Hsz Hall IH];
    intros off H1 H2; simpl in *.
  - by apply elem_of_nil in H1.
  - apply elem_of_cons in H1 as [E1|H1]; apply elem_of_cons in H2 as [E2|H2].
    + injection E1 as -> ->. injection E2 as -> ->. by left.
    + injection E1 as -> ->. apply (place_bounds _ _ _ _ Hall) in H2.
      simpl. right. left. lia.
    + injection E2 as -> ->. apply (place_bounds _ _ _ _ Hall) in H1.
      simpl. right. right. lia.
    + by eapply IH.
Qed.

Lemma seg_place_block_at (a : area) (off off' o st sz : Z) (l : list block) :
  seg a off l off' -> (o, (st, sz)) ∈ place off l -> block_at a o st sz.
Proof.
  revert off. induction l as [|[st' sz'] l IH]; intros off; simpl.
  - intros _ Hin. by apply elem_of_nil in Hin.
  - intros [Hb Hs] Hin. apply elem_of_cons in Hin as [Heq|Hin].
    + by injection Heq as -> -> ->.
    + by eapply IH.
Qed.

(** A live user pointer, seen in the tiling of the whole array. *)
Lemma inv_live_place (s : sys) (mid : list block) (h sz : Z) :
  (h - HEADER_SIZE, (ALLOCATED, sz)) ∈ place 4 mid ->
  (h - HEADER_SIZE, (ALLOCATED, sz)) ∈ place 0 (sentinel :: mid ++ [sentinel]).
Proof.
  intros Hin. simpl. apply elem_of_cons. right.
  rewrite place_app. apply elem_of_app. by left.
Qed.

(** X8: in a reachable state every live user pointer belongs to a block
    marked allocated that lies strictly between the two sentinels, and the
    blocks of two different live user pointers, control fields included, do
    not overlap. *)
Theorem live_blocks_disjoint (area_addr : Z) (s : sys) (h : Z) :
  valid_area_addr area_addr -> reachable area_addr s -> h ∈ live s ->
  exists p,
    load (mem s) (h - 1) = Some p /\
    load (mem s) (h - HEADER_SIZE) = Some ALLOCATED /\
    CONTROL_FIELDS_SIZE + HEADER_SIZE <= h /\
    h + p + 2 <= BYTE_COUNT - CONTROL_FIELDS_SIZE /\
    forall h' p',
      h' ∈ live s -> h' <> h -> load (mem s) (h' - 1) = Some p' ->
      h + p + 2 <= h' - HEADER_SIZE \/ h' + p' + 2 <= h - HEADER_SIZE.
Proof.
  intros Hv Hr Hin. destruct (reachable_inv _ _ Hv Hr) as (Hok & mid & Hs & Hlive).
  destruct (Hlive _ Hin) as (p & Hp).
  pose proof (seg_sizes_nonneg _ _ _ _ Hok Hs) as Hnn.
  pose proof Hs as Hs0. simpl in Hs0. destruct Hs0 as [_ Hmid].
  apply seg_app in Hmid as [Hmid _].
  pose proof (seg_total _ _ _ _ Hs) as Ht. simpl in Ht. rewrite total_app in Ht.
  simpl in Ht.
  pose proof Hnn as Hnn'. apply Forall_cons in Hnn' as [_ Hnn'].
  apply Forall_app in Hnn' as [Hnm _].
  pose proof (place_bounds _ _ _ _ Hnm Hp) as Hb. simpl in Hb.
  pose proof (seg_place_block_at _ _ _ _ _ _ _ Hmid Hp) as (B0 & B1 & _).
  unfold HEADER_SIZE, CONTROL_FIELDS_SIZE, BYTE_COUNT in *.
  exists p. replace (h - 1) with (h - 2 + 1) by lia.
  split; [done|]. split; [done|]. split; [lia|]. split; [lia|].
  intros h' p' Hin' Hne Hp'.
  destruct (Hlive _ Hin') as (q & Hq).
  pose proof (seg_place_block_at _ _ _ _ _ _ _ Hmid Hq) as (_ & C1 & _).
  replace (h' - 1) with (h' - 2 + 1) in Hp' by lia.
  rewrite Hp' in C1. injection C1 as <-.
  destruct (place_disjoint _ _ _ _ _ _ Hnm Hp Hq) as [[E _]|[D|D]];
    simpl in *; lia.
Qed.

Lemma live_blocks_disjoint_witness :
  exists p,
    load (final_area (simple_allocate 12)
            (final_area (simple_allocate 12) fresh_area)) (22 - 1) = Some p /\
    load (final_area (simple_allocate 12)
            (final_area (simple_allocate 12) fresh_area)) (22 - HEADER_SIZE)
      = Some ALLOCATED /\
    CONTROL_FIELDS_SIZE + HEADER_SIZE <= 22 /\
    22 + p + 2 <= BYTE_COUNT - CONTROL_FIELDS_SIZE /\
    forall h' p',
      h' ∈ [22; 6] -> h' <> 22 ->
      load (final_area (simple_allocate 12)
              (final_area (simple_allocate 12) fresh_area)) (h' - 1) = Some p' ->
      22 + p + 2 <= h' - HEADER_SIZE \/ h' + p' + 2 <= 22 - HEADER_SIZE.
Proof.
  apply (live_blocks_disjoint 65536
           (Sys (final_area (simple_allocate 12)
                   (final_area (simple_allocate 12) fresh_area)) [22; 6]) 22).
  - split; [lia|reflexivity].
  - apply (reach_allocate 65536
             (Sys (final_area (simple_allocate 12) fresh_area) [6])
             12 (Some 22)).
    + apply (reach_allocate 65536 (Sys fresh_area []) 12 (Some 6)).
      * apply (reach_init 65536 zero_area).
        -- vm_compute. reflexivity.
        -- vm_compute. reflexivity.
      * unfold is_uint. lia.
      * vm_compute. reflexivity.
    + unfold is_uint. lia.
    + vm_compute. reflexivity.
  - simpl. apply elem_of_cons. by left.
Defined.

(** X9: the two sentinels stay.  In every reachable state the walk starts
    with the allocated block of payload 0 at offset 0 and ends with the
    allocated block of payload 0 at offset [BYTE_COUNT - 4], and neither of
    their user pointers is ever live. *)
Theorem sentinels_permanent (area_addr : Z) (s : sys) :
  valid_area_addr area_addr -> reachable area_addr s ->
  (exists mid,
     print_blocks (mem s) =
       Done (Block 0 ALLOCATED 0 0 ALLOCATED
             :: mid ++
             [Block (BYTE_COUNT - CONTROL_FIELDS_SIZE) ALLOCATED 0 0 ALLOCATED])
         (mem s)) /\
  (USER_PTR 0 ∉ live s) /\
  (USER_PTR (BYTE_COUNT - CONTROL_FIELDS_SIZE) ∉ live s).
Proof.
  intros Hv Hr. destruct (reachable_inv _ _ Hv Hr) as (Hok & mid & Hs & Hlive).
  pose proof (seg_sizes_nonneg _ _ _ _ Hok Hs) as Hnn.
  apply Forall_cons in Hnn as [_ Hnn]. apply Forall_app in Hnn as [Hnm _].
  pose proof (seg_total _ _ _ _ Hs) as Ht. simpl in Ht. rewrite total_app in Ht.
  simpl in Ht. unfold CONTROL_FIELDS_SIZE, BYTE_COUNT in Ht.
  split; [|split].
  - exists (infos 4 mid). rewrite (print_blocks_seg _ _ Hok Hs). f_equal.
    simpl. f_equal. rewrite infos_app. simpl. change (0 + 0 + 4) with 4.
    replace (4 + total mid) with (BYTE_COUNT - CONTROL_FIELDS_SIZE); [done|].
    unfold BYTE_COUNT, CONTROL_FIELDS_SIZE. lia.
  - intros Hin. destruct (Hlive _ Hin) as (p & Hp).
    apply (place_bounds _ _ _ _ Hnm) in Hp.
    unfold USER_PTR, HEADER_SIZE in Hp. lia.
  - intros Hin. destruct (Hlive _ Hin) as (p & Hp).
    apply (place_bounds _ _ _ _ Hnm) in Hp. simpl in Hp.
    unfold USER_PTR, HEADER_SIZE, BYTE_COUNT, CONTROL_FIELDS_SIZE in Hp. lia.
Qed.

Lemma sentinels_permanent_witness :
  exists mid,
    print_blocks (final_area (simple_allocate 12) fresh_area) =
      Done (Block 0 ALLOCATED 0 0 ALLOCATED
            :: mid ++
            [Block (BYTE_COUNT - CONTROL_FIELDS_SIZE) ALLOCATED 0 0 ALLOCATED])
        (final_area (simple_allocate 12) fresh_area).
Proof.
  refine (proj1 (sentinels_permanent 65536
            (Sys (final_area (simple_allocate 12) fresh_area) [6]) _ _)).
  - split; [lia|reflexivity].
  - apply (reach_allocate 65536 (Sys fresh_area []) 12 (Some 6)).
    + apply (reach_init 65536 zero_area).
      * vm_compute. reflexivity.
      * vm_compute. reflexivity.
    + unfold is_uint. lia.
    + vm_compute. reflexivity.
Defined.

Lemma elem_of_place_block (off o : Z) (b : block) (l : list block) :
  (o, b) ∈ place off l -> b ∈ l.
Proof.
  revert off. induction l as [|[st sz] l IH]; simpl; intros off Hin.
  - by apply elem_of_nil in Hin.
  - apply elem_of_cons in Hin as [Heq|Hin]; apply elem_of_cons.
    + injection Heq as _ ->. by left.
    + right. by eapply IH.
Qed.

(** The free block found by a successful [simple_allocate], seen between
    the sentinels, and the bytes the call may have written. *)
Lemma allocate_found_in_mid (a a' : area) (mid : list block) (req h : Z) :
  area_ok a -> 0 <= req ->
  seg a 0 (sentinel :: mid ++ [sentinel]) BYTE_COUNT ->
  simple_allocate req a = Done (Some h) a' ->
  exists sz,
    (h - HEADER_SIZE, (FREE, sz)) ∈ place 4 mid /\
    req <= sz /\
    (forall i, i < h - HEADER_SIZE \/ h - HEADER_SIZE + sz + 4 <= i ->
       load a' i = load a i).
Proof.
  intros Hok Hreq Hs Hd.
  pose proof (simple_allocate_refines a req _ Hok Hreq Hs) as H.
  rewrite allocate_blocks_sentinels in H.
  destruct (allocate_blocks 4 req mid) as [[h0 mid']|] eqn:E;
    [|rewrite Hd in H; discriminate H].
  destruct H as (a1 & Hd1 & _). rewrite Hd in Hd1. injection Hd1 as <- _.
  apply allocate_blocks_Some in E
    as (pre & [st sz] & post & -> & _ & Hfit & Hh & _).
  unfold fits in Hfit. simpl in Hfit. apply andb_true_iff in Hfit as [Hst Hle].
  apply Z.eqb_eq in Hst. apply Z.leb_le in Hle. subst st.
  unfold USER_PTR, HEADER_SIZE in *.
  assert (Hin : (h - 2, (FREE, sz)) ∈ place 4 (pre ++ (FREE, sz) :: post)).
  { rewrite place_app. apply elem_of_app. right. simpl. apply elem_of_cons.
    left. f_equal. lia. }
  exists sz. split; [done|]. split; [done|].
  destruct (simple_allocate_Some_inv _ _ _ _ Hok Hreq Hd)
    as (s0 & _ & Hsz & _ & _ & _ & _ & Hfr & _).
  simpl in Hs. destruct Hs as [_ Hmid]. apply seg_app in Hmid as [Hmid _].
  pose proof (seg_place_block_at _ _ _ _ _ _ _ Hmid Hin) as (_ & B1 & _).
  rewrite Hsz in B1. injection B1 as ->. exact Hfr.
Qed.

(** X10: [simple_allocate] never hands out a user pointer that is still
    live. *)
Theorem simple_allocate_fresh (area_addr : Z) (s : sys) (req_size h : Z)
    (a' : area) :
  valid_area_addr area_addr -> reachable area_addr s -> is_uint req_size ->
  simple_allocate req_size (mem s) = Done (Some h) a' ->
  h ∉ live s.
Proof.
  intros Hv Hr [Hreq _] Hd Hin.
  destruct (reachable_inv _ _ Hv Hr) as (Hok & mid & Hs & Hlive).
  destruct (allocate_found_in_mid _ _ _ _ _ Hok Hreq Hs Hd) as (sz & Hf & _).
  destruct (Hlive _ Hin) as (p & Hp).
  pose proof (seg_sizes_nonneg _ _ _ _ Hok Hs) as Hnn.
  apply Forall_cons in Hnn as [_ Hnn]. apply Forall_app in Hnn as [Hnm _].
  destruct (place_disjoint _ _ _ _ _ _ Hnm Hf Hp) as [[_ E]|[D|D]].
  - injection E as E _. unfold FREE, ALLOCATED in E. lia.
  - apply (place_bounds _ _ _ _ Hnm) in Hf. simpl in *. lia.
  - apply (place_bounds _ _ _ _ Hnm) in Hp. simpl in *. lia.
Qed.

Lemma simple_allocate_fresh_witness : 22 ∉ [6].
Proof.
  apply (simple_allocate_fresh 65536
           (Sys (final_area (simple_allocate 12) fresh_area) [6]) 12 22
           (final_area (simple_allocate 12)
              (final_area (simple_allocate 12) fresh_area))).
  - split; [lia|reflexivity].
  - apply (reach_allocate 65536 (Sys fresh_area []) 12 (Some 6)).
    + apply (reach_init 65536 zero_area).
      * vm_compute. reflexivity.
      * vm_compute. reflexivity.
    + unfold is_uint. lia.
    + vm_compute. reflexivity.
  - unfold is_uint. lia.
  - vm_compute. reflexivity.
Defined.

(** X11: [simple_allocate] leaves the live blocks alone.  Whatever it
    returns, every byte of the block of a live user pointer, its header, its
    payload and its trailer, has the value it had before the call. *)
Theorem simple_allocate_keeps_live_data (area_addr : Z) (s : sys)
    (req_size : Z) (r : option Z) (a' : area) (h p : Z) :
  valid_area_addr area_addr -> reachable area_addr s -> is_uint req_size ->
  simple_allocate req_size (mem s) = Done r a' ->
  h ∈ live s -> load (mem s) (h - 1) = Some p ->
  forall i, h - HEADER_SIZE <= i < h + p + 2 -> load a' i = load (mem s) i.
Proof.
  intros Hv Hr [Hreq Hu] Hd Hin Hp i Hi.
  destruct (reachable_inv _ _ Hv Hr) as (Hok & mid & Hs & Hlive).
  destruct r as [h0|].
  - destruct (allocate_found_in_mid _ _ _ _ _ Hok Hreq Hs Hd) as (sz & Hf & _ & Hfr).
    destruct (Hlive _ Hin) as (q & Hq).
    pose proof (seg_sizes_nonneg _ _ _ _ Hok Hs) as Hnn.
    apply Forall_cons in Hnn as [_ Hnn]. apply Forall_app in Hnn as [Hnm _].
    pose proof Hs as Hs0. simpl in Hs0. destruct Hs0 as [_ Hmid].
    apply seg_app in Hmid as [Hmid _].
    pose proof (seg_place_block_at _ _ _ _ _ _ _ Hmid Hq) as (_ & B1 & _).
    unfold HEADER_SIZE in *.
    replace (h - 1) with (h - 2 + 1) in Hp by lia.
    rewrite Hp in B1. injection B1 as <-.
    apply Hfr.
    destruct (place_disjoint _ _ _ _ _ _ Hnm Hf Hq) as [[_ E]|[D|D]];
      simpl in *; [|lia|lia].
    injection E as E _. unfold FREE, ALLOCATED in E. lia.
  - pose proof (simple_allocate_refines _ req_size _ Hok Hreq Hs) as H.
    destruct (allocate_blocks 0 req_size (sentinel :: mid ++ [sentinel]))
      as [[h0 l']|].
    + destruct H as (a1 & Hd1 & _). rewrite Hd in Hd1. discriminate Hd1.
    + rewrite Hd in H. by injection H as ->.
Qed.

Lemma simple_allocate_keeps_live_data_witness :
  load (final_area (simple_allocate 12)
          (final_area (simple_allocate 12) fresh_area)) 10
  = load (final_area (simple_allocate 12) fresh_area) 10.
Proof.
  refine (simple_allocate_keeps_live_data 65536
            (Sys (final_area (simple_allocate 12) fresh_area) [6]) 12 (Some 22)
            _ 6 12 _ _ _ _ _ _ 10 _); [| | | | | |unfold HEADER_SIZE; lia].
  - split; [lia|reflexivity].
  - apply (reach_allocate 65536 (Sys fresh_area []) 12 (Some 6)).
    + apply (reach_init 65536 zero_area).
      * vm_compute. reflexivity.
      * vm_compute. reflexivity.
    + unfold is_uint. lia.
    + vm_compute. reflexivity.
  - unfold is_uint. lia.
  - vm_compute. reflexivity.
  - simpl. apply elem_of_cons. by left.
  - vm_compute. reflexivity.
Defined.

(** X12: [simple_release] leaves the other live blocks alone: every byte of
    the block of a live user pointer other than the one released has the
    value it had before the call. *)
Theorem simple_release_keeps_live_data (area_addr : Z) (s : sys)
    (user_ptr : Z) (a' : area) (h p : Z) :
  valid_area_addr area_addr -> reachable area_addr s ->
  user_ptr ∈ live s ->
  simple_release area_addr user_ptr (mem s) = Done tt a' ->
  h ∈ live s -> h <> user_ptr -> load (mem s) (h - 1) = Some p ->
  forall i, h - HEADER_SIZE <= i < h + p + 2 -> load a' i = load (mem s) i.
Proof.
  intros Hv Hr Hin Hd Hh Hne Hp i Hi.
  pose proof (reachable_inv _ _ Hv Hr) as Hinv.
  destruct (inv_release_blocks area_addr s user_ptr Hv Hinv Hin)
    as (a1 & lpre & sz & ab & nxt & lpost & Hd1 & Hok' & Hoff & Hs & Hall & Hn
        & _ & Hs' & Hfr & Hloc).
  rewrite Hd in Hd1. injection Hd1 as <-.
  destruct Hinv as (Hok & _).
  destruct (Hloc _ Hh) as (q & Hq).
  pose proof (seg_place_block_at _ _ _ _ _ _ _ Hs Hq) as (_ & B1 & _).
  unfold HEADER_SIZE in *.
  replace (h - 1) with (h - 2 + 1) in Hp by lia.
  rewrite Hp in B1. injection B1 as <-.
  pose proof (seg_sizes_nonneg _ _ _ _ Hok Hs) as Hnn.
  apply Forall_app in Hnn as [Hn1 Hn2].
  apply Forall_cons in Hn2 as [Hsz Hn2]. simpl in Hsz.
  apply Forall_app in Hn2 as [Hn3 Hn4].
  assert (Hab : 0 <= total ab).
  { clear -Hn3. induction Hn3 as [|[st' sz'] l' H' _ IH']; simpl in *;
      unfold CONTROL_FIELDS_SIZE; lia. }
  rewrite place_app, elem_of_app in Hq. rewrite Z.add_0_l in Hq.
  destruct Hq as [Hq|Hq].
  - apply (place_bounds _ _ _ _ Hn1) in Hq. simpl in Hq. apply Hfr; lia.
  - simpl in Hq. apply elem_of_cons in Hq as [Heq|Hq].
    + injection Heq as Heq _. lia.
    + rewrite place_app, elem_of_app in Hq. destruct Hq as [Hq|Hq].
      * apply elem_of_place_block in Hq. rewrite Forall_forall in Hall.
        specialize (Hall _ Hq). simpl in Hall. unfold FREE, ALLOCATED in Hall. lia.
      * apply (place_bounds _ _ _ _ Hn4) in Hq. simpl in Hq. apply Hfr; lia.
Qed.

Lemma simple_release_keeps_live_data_witness :
  load (final_area (simple_release 65536 6)
          (final_area (simple_allocate 12)
             (final_area (simple_allocate 12) fresh_area))) 30
  = load (final_area (simple_allocate 12)
            (final_area (simple_allocate 12) fresh_area)) 30.
Proof.
  refine (simple_release_keeps_live_data 65536
            (Sys (final_area (simple_allocate 12)
                    (final_area (simple_allocate 12) fresh_area)) [22; 6]) 6
            _ 22 12 _ _ _ _ _ _ _ 30 _); [| | | | | | |unfold HEADER_SIZE; lia].
  - split; [lia|reflexivity].
  - apply (reach_allocate 65536
             (Sys (final_area (simple_allocate 12) fresh_area) [6])
             12 (Some 22)).
    + apply (reach_allocate 65536 (Sys fresh_area []) 12 (Some 6)).
      * apply (reach_init 65536 zero_area).
        -- vm_compute. reflexivity.
        -- vm_compute. reflexivity.
      * unfold is_uint. lia.
      * vm_compute. reflexivity.
    + unfold is_uint. lia.
    + vm_compute. reflexivity.
  - simpl. apply elem_of_cons. right. apply elem_of_cons. by left.
  - vm_compute. reflexivity.
  - simpl. apply elem_of_cons. by left.
  - lia.
  - vm_compute. reflexivity.
Defined.

(** ** X13: allocate then release, in any reachable state *)

Lemma no_adjacent_free_infos (off : Z) (l1 l2 : list block) (b1 b2 : block) :
  no_adjacent_free (infos off (l1 ++ b1 :: b2 :: l2)) = true ->
  fst b1 = FREE -> fst b2 <> FREE.
Proof.
  revert off. induction l1 as [|[st sz] l1 IH]; intros off.
  - destruct b1 as [st1 sz1], b2 as [st2 sz2]. simpl. intros H -> ->.
    by rewrite Z.eqb_refl in H.
  - rewrite <- app_comm_cons. remember (l1 ++ b1 :: b2 :: l2) as L eqn:HL.
    destruct L as [|[st' sz'] L'].
    + by destruct l1.
    + simpl. intros H. apply andb_true_iff in H as [_ H].
      apply (IH (off + sz + 4)). exact H.
Qed.

(** X13: in a reachable state whose walk shows no two free blocks side by
    side, a successful [simple_allocate] followed at once by
    [simple_release] of the returned user pointer gives back an array whose
    walk shows exactly the blocks it showed before the allocation. *)
Theorem allocate_release_restores (area_addr : Z) (s : sys)
    (req_size user_ptr : Z) (a' : area) (bl : list block_info) :
  valid_area_addr area_addr -> reachable area_addr s -> is_uint req_size ->
  print_blocks (mem s) = Done bl (mem s) -> no_adjacent_free bl = true ->
  simple_allocate req_size (mem s) = Done (Some user_ptr) a' ->
  exists a'',
    simple_release area_addr user_ptr a' = Done tt a'' /\
    print_blocks a'' = Done bl a''.
Proof.
  intros Hv Hr [Hreq _] Hp Hnaf Hd.
  destruct (reachable_inv _ _ Hv Hr) as (Hok & mid & Hs & _).
  assert (Hbl : bl = infos 0 (sentinel :: mid ++ [sentinel])).
  { rewrite (print_blocks_seg _ _ Hok Hs) in Hp. by injection Hp. }
  subst bl. clear Hp.
  pose proof (simple_allocate_refines _ req_size _ Hok Hreq Hs) as H.
  rewrite allocate_blocks_sentinels in H.
  destruct (allocate_blocks 4 req_size mid) as [[h0 mid']|] eqn:E;
    [|rewrite Hd in H; discriminate H].
  destruct H as (a1 & Hd1 & Hok1 & Hs1). rewrite Hd in Hd1.
  injection Hd1 as -> <-.
  apply allocate_blocks_Some in E
    as (pre & [st sz] & post & -> & _ & Hfit & -> & ->).
  unfold fits in Hfit. simpl in Hfit. apply andb_true_iff in Hfit as [Hst Hle].
  apply Z.eqb_eq in Hst. apply Z.leb_le in Hle. subst st.
  assert (Hrest : exists b2 l2, post ++ [sentinel] = b2 :: l2).
  { destruct post as [|b2 l2]; simpl; eauto. }
  destruct Hrest as (b2 & l2 & Hrest).
  assert (HL : sentinel :: (pre ++ (FREE, sz) :: post) ++ [sentinel]
               = (sentinel :: pre) ++ (FREE, sz) :: b2 :: l2).
  { simpl. rewrite <- app_assoc. simpl. by rewrite Hrest. }
  rewrite HL in Hnaf, Hs |- *.
  pose proof (no_adjacent_free_infos _ _ _ _ _ Hnaf eq_refl) as Hb2.
  assert (He : ends_allocated (b2 :: l2)).
  { rewrite <- Hrest. by apply ends_allocated_app. }
  assert (Hptr : USER_PTR (total (sentinel :: pre)) = USER_PTR (4 + total pre)).
  { unfold USER_PTR. simpl. unfold CONTROL_FIELDS_SIZE. lia. }
  assert (Hfinal : forall T tail,
            seg a' 0 ((sentinel :: pre) ++ (ALLOCATED, T) :: tail) BYTE_COUNT ->
            ends_allocated tail ->
            released T tail = (FREE, sz) :: b2 :: l2 ->
            exists a'',
              simple_release area_addr (USER_PTR (4 + total pre)) a' = Done tt a'' /\
              print_blocks a'' =
                Done (infos 0 ((sentinel :: pre) ++ (FREE, sz) :: b2 :: l2)) a'').
  { intros T tail Hseg Het Hrel.
    destruct (simple_release_effect area_addr a' _ tail ALLOCATED T Hv Hok1 Hseg Het)
      as (a2 & Hd2 & Hok2 & Hs2 & _).
    rewrite Hptr in Hd2. exists a2. split; [exact Hd2|].
    rewrite Hrel in Hs2. by rewrite (print_blocks_seg a2 _ Hok2 Hs2). }
  unfold allocated_from in Hs1. simpl snd in Hs1.
  unfold MIN_BLOCK_SIZE, CONTROL_FIELDS_SIZE in Hs1.
  destruct (Z.ltb_spec (sz - req_size) 6) as [Hw|Hsp].
  - apply (Hfinal sz (b2 :: l2)); [|exact He|].
    + replace ((sentinel :: pre) ++ (ALLOCATED, sz) :: b2 :: l2)
        with (sentinel :: (pre ++ [(ALLOCATED, sz)] ++ post) ++ [sentinel]);
        [exact Hs1|].
      simpl. rewrite <- app_assoc. simpl. by rewrite Hrest.
    + unfold released. by rewrite (absorb_stop sz b2 l2 Hb2).
  - apply (Hfinal req_size ((FREE, sz - req_size - 4) :: b2 :: l2)).
    + replace ((sentinel :: pre) ++
               (ALLOCATED, req_size) :: (FREE, sz - req_size - 4) :: b2 :: l2)
        with (sentinel ::
              (pre ++ [(ALLOCATED, req_size); (FREE, sz - req_size - 4)] ++ post)
              ++ [sentinel]); [exact Hs1|].
      simpl. rewrite <- app_assoc. simpl. by rewrite Hrest.
    + destruct He as (x & Hl & Hx). exists x. split; [|done].
      by rewrite last_cons_cons.
    + unfold released. rewrite absorb_free.
      rewrite (absorb_stop _ b2 l2 Hb2). simpl. do 2 f_equal. lia.
Qed.

Lemma allocate_release_restores_witness :
  exists a'',
    simple_release 65536 22
      (final_area (simple_allocate 12)
         (final_area (simple_allocate 12) fresh_area)) = Done tt a'' /\
    print_blocks a'' =
      Done [Block 0 ALLOCATED 0 0 ALLOCATED;
            Block 4 ALLOCATED 12 12 ALLOCATED;
            Block 20 FREE 228 228 FREE;
            Block 252 ALLOCATED 0 0 ALLOCATED] a''.
Proof.
  apply (allocate_release_restores 65536
           (Sys (final_area (simple_allocate 12) fresh_area) [6]) 12 22).
  - split; [lia|reflexivity].
  - apply (reach_allocate 65536 (Sys fresh_area []) 12 (Some 6)).
    + apply (reach_init 65536 zero_area).
      * vm_compute. reflexivity.
      * vm_compute. reflexivity.
    + unfold is_uint. lia.
    + vm_compute. reflexivity.
  - unfold is_uint. lia.
  - vm_compute. reflexivity.
  - reflexivity.
  - vm_compute. reflexivity.
Defined.

(** ** X14: [simple_release] on any array and any pointer *)

Lemma release_right_loop_inv (a a' : area) (fuel : nat) (bp t T : Z) :
  area_ok a -> release_right_loop fuel bp t a = Done T a' ->
  a' = a /\ t <= T /\ 0 <= bp + T + 4 < BYTE_COUNT.
Proof.
  intros Hok. pose proof (area_ok_length a Hok) as Hlen. revert t.
  induction fuel as [|fuel IH]; intros t; simpl; unfold_code;
    destruct (load a (bp + t + 4)) as [st|] eqn:E; simpl; try discriminate;
    pose proof (load_Some_range _ _ _ E) as Hr;
    destruct (st =? FREE); try discriminate;
    try (intros HD; injection HD as <- <-; split; [done|lia]).
  destruct (load a (bp + 5 + t)) as [s|] eqn:E'; simpl; [|discriminate].
  pose proof (area_ok_byte _ _ _ Hok E') as Hb. intros HD.
  apply IH in HD as (-> & HT & HR). split; [done|lia].
Qed.

(** X14: whatever the array holds and whatever pointer it is given, a call
    of [simple_release] that returns was given a pointer from offset 2 to
    offset 253 and has written four bytes at most, all of them inside the
    array and none before the head of the block: the head status and size,
    the old trailer status and the new trailer size.  The head then reads
    free with a size not below the one it had. *)
Theorem simple_release_writes (area_addr : Z) (a a' : area) (user_ptr : Z) :
  valid_area_addr area_addr -> area_ok a ->
  simple_release area_addr user_ptr a = Done tt a' ->
  HEADER_SIZE <= user_ptr /\ user_ptr + 2 < BYTE_COUNT /\
  area_ok a' /\
  exists s T,
    load a (user_ptr - 1) = Some s /\
    s <= T /\ user_ptr + T + 2 < BYTE_COUNT /\
    load a' (user_ptr - HEADER_SIZE) = Some FREE /\
    load a' (user_ptr - 1) = Some T /\
    load a' (user_ptr + T) = Some T /\
    forall i,
      i <> user_ptr - HEADER_SIZE -> i <> user_ptr - 1 ->
      i <> user_ptr + s + 1 -> i <> user_ptr + T ->
      load a' i = load a i.
Proof.
  intros Hv Hok H. pose proof (area_ok_length a Hok) as Hlen.
  unfold simple_release in H.
  remember loop_fuel as fuel eqn:Hfuel. clear Hfuel.
  unfold_code in H. unfold HEADER_SIZE, FREE in *.
  set (bp := user_ptr - 2) in *.
  destruct (load a (bp + 1)) as [s|] eqn:E; simpl in H; [|discriminate H].
  pose proof (area_ok_byte _ _ _ Hok E) as Hs.
  destruct (in_area a bp) eqn:Ein; simpl in H; [|discriminate H].
  pose proof (proj1 (in_area_true _ _) Ein) as Hbp.
  rewrite load_store in H by lia.
  destruct (Z.eq_dec bp (bp + 1)) as [?|_]; [lia|]. rewrite E in H. simpl in H.
  destruct (in_area (store a bp 0) (bp + s + 3)) eqn:Ein2; simpl in H;
    [|discriminate H].
  pose proof (proj1 (in_area_true _ _) Ein2) as Hbs. rewrite length_store in Hbs.
  rewrite release_left_loop_skip in H by (done || lia). simpl in H.
  set (a2 := store (store a bp 0) (bp + s + 3) 0) in *.
  assert (Hok2 : area_ok a2) by (by repeat apply area_ok_store).
  pose proof (area_ok_length a2 Hok2) as Hlen2.
  destruct (release_right_loop fuel bp s a2) as [T a3| |] eqn:ER;
    try discriminate H.
  apply (release_right_loop_inv _ _ _ _ _ _ Hok2) in ER as (-> & HsT & HT).
  destruct (in_area a2 (bp + 1)) eqn:Ein3; simpl in H; [|discriminate H].
  rewrite load_store in H by lia.
  destruct (Z.eq_dec (bp + 1) (bp + 1)) as [_|?]; [|lia]. simpl in H.
  rewrite (Z.mod_small T 256) in H by (unfold BYTE_COUNT in *; lia).
  destruct (in_area (store a2 (bp + 1) T) (bp + T + 2)) eqn:Ein4; simpl in H;
    [|discriminate H].
  injection H as <-.
  unfold BYTE_COUNT in *.
  split; [lia|]. split; [lia|]. split; [by repeat apply area_ok_store|].
  exists s, T.
  replace (user_ptr - 1) with (bp + 1) by lia.
  replace (user_ptr + T) with (bp + T + 2) by lia.
  replace (user_ptr + s + 1) with (bp + s + 3) by lia.
  split; [done|]. split; [done|]. split; [lia|].
  split. { unfold a2. ls. done. }
  split. { ls. by rewrite Z.mod_small by lia. }
  split. { ls. by rewrite Z.mod_small by lia. }
  intros i N0 N1 N2 N3. unfold a2. by ls.
Qed.

Lemma simple_release_writes_witness :
  HEADER_SIZE <= 6 /\ 6 + 2 < BYTE_COUNT.
Proof.
  destruct (simple_release_writes 65536
              (final_area (simple_allocate 12) fresh_area)
              (final_area (simple_release 65536 6)
                 (final_area (simple_allocate 12) fresh_area)) 6)
    as (H1 & H2 & _).
  - split; [lia|reflexivity].
  - vm_compute. reflexivity.
  - vm_compute. reflexivity.
  - split; [exact H1|exact H2].
Defined.

(** ** X15: how much the fresh array can give *)

(** X15: right after [simple_init], on whatever the array held before, a
    request of at most [BYTE_COUNT - 12 = 244] bytes is served from the
    block at offset 4, and any larger request of an [unsigned int] is
    answered with [NULL]. *)
Theorem fresh_area_largest_request (a a1 : area) (req_size : Z) :
  area_ok a -> simple_init a = Done tt a1 -> is_uint req_size ->
  (req_size <= BYTE_COUNT - 12 ->
     exists a2, simple_allocate req_size a1 = Done (Some (USER_PTR 4)) a2) /\
  (BYTE_COUNT - 12 < req_size ->
     simple_allocate req_size a1 = Done None a1).
Proof.
  intros Hok Hinit [Hreq _].
  destruct (simple_init_Done a Hok) as (a' & Hd & Hok1 & Hs).
  rewrite Hinit in Hd. injection Hd as <-.
  pose proof (simple_allocate_refines a1 req_size _ Hok1 Hreq Hs) as H.
  change [sentinel; (FREE, 244); sentinel]
    with (sentinel :: [(FREE, 244)] ++ [sentinel]) in H.
  rewrite (allocate_blocks_sentinels req_size [(FREE, 244)]) in H.
  simpl in H. unfold fits in H. simpl in H. unfold BYTE_COUNT.
  destruct (Z.leb_spec req_size 244) as [Hle|Hgt]; split; intros Hc; try lia.
  - destruct H as (a2 & Hd2 & _). by exists a2.
  - exact H.
Qed.

Lemma fresh_area_largest_request_witness :
  exists a2, simple_allocate 244 fresh_area = Done (Some (USER_PTR 4)) a2.
Proof.
  apply (fresh_area_largest_request zero_area fresh_area 244).
  - vm_compute. reflexivity.
  - vm_compute. reflexivity.
  - unfold is_uint. lia.
  - unfold BYTE_COUNT. lia.
Defined.

(** ** X16: the loops end *)

(** X16: on any contents of the array none of the loops of
    [print_blocks], [simple_allocate] and [simple_release] goes round
    [BYTE_COUNT] times: each call either returns or touches a byte outside
    the array. *)
Theorem loops_terminate (area_addr : Z) (a : area) (req_size user_ptr : Z) :
  valid_area_addr area_addr -> area_ok a ->
  print_blocks a <> OutOfFuel /\
  simple_allocate req_size a <> OutOfFuel /\
  simple_release area_addr user_ptr a <> OutOfFuel.
Proof.
  intros Hv Hok. split; [|split].
  - by apply print_blocks_terminates.
  - by apply simple_allocate_terminates.
  - by apply simple_release_terminates.
Qed.

Lemma loops_terminate_witness :
  print_blocks zero_area <> OutOfFuel /\
  simple_allocate 12 zero_area <> OutOfFuel /\
  simple_release 65536 6 zero_area <> OutOfFuel.
Proof.
  apply (loops_terminate 65536 zero_area 12 6).
  - split; [lia|reflexivity].
  - vm_compute. reflexivity.
Defined.

(** ** X17: the test driver *)

Lemma bind_Done {A B} (m : M A) (k : A -> M B) (a a' : area) (x : A) :
  m a = Done x a' -> bind m k a = k x a'.
Proof. unfold bind. by intros ->. Qed.

(** X17: started on the zeroed array, at whatever valid address the array
    sits, [main] runs through without touching a byte outside the array and
    returns 0 after ten reports.  The first report shows the fresh blocks and
    so does the third, after the first allocation has been released; the
    seventh, after the three blocks of 12 bytes were released, and the last
    show free blocks side by side. *)
Theorem main_reports (area_addr : Z) :
  valid_area_addr area_addr ->
  exists reports a',
    main area_addr zero_area = Done (reports, 0) a' /\
    length reports = 10%nat /\
    reports !! 0%nat = Some (init_blocks 244) /\
    reports !! 1%nat =
      Some [Block 0 ALLOCATED 0 0 ALLOCATED;
            Block 4 ALLOCATED 244 244 ALLOCATED;
            Block 252 ALLOCATED 0 0 ALLOCATED] /\
    reports !! 2%nat = Some (init_blocks 244) /\
    reports !! 6%nat =
      Some [Block 0 ALLOCATED 0 0 ALLOCATED;
            Block 4 FREE 28 28 FREE;
            Block 36 FREE 212 212 FREE;
            Block 252 ALLOCATED 0 0 ALLOCATED] /\
    reports !! 9%nat =
      Some [Block 0 ALLOCATED 0 0 ALLOCATED;
            Block 4 FREE 28 28 FREE;
            Block 36 FREE 100 100 FREE;
            Block 140 FREE 108 108 FREE;
            Block 252 ALLOCATED 0 0 ALLOCATED].
Proof.
  intros Hv.
  assert (Hv0 : valid_area_addr 65536) by (split; [lia|reflexivity]).
  do 2 eexists. split.
  - unfold main.
    repeat
      match goal with
      | |- bind ?m ?k ?a = _ =>
          let H := fresh "Hstep" in
          eassert (H : m a = Done _ _)
            by first
                 [ rewrite (simple_release_addr_indep area_addr 65536 _ _ Hv Hv0);
                   vm_compute; reflexivity
                 | vm_compute; reflexivity ];
          rewrite (bind_Done m k a _ _ H); cbv beta; clear H
      end.
    reflexivity.
  - repeat split; reflexivity.
Qed.

Lemma main_reports_witness :
  exists reports a',
    main 65536 zero_area = Done (reports, 0) a' /\ length reports = 10%nat.
Proof.
  destruct (main_reports 65536) as (reports & a' & Hd & Hlen & _).
  - split; [lia|reflexivity].
  - exists reports, a'. split; [exact Hd|exact Hlen].
Defined.
